(** * Dependency-closure validator of the dnsmasq image
    (images/dnsmasq/validate_dynamic_deps.py)

    A shallow embedding of the script and the proofs of its specification.

    Modelling choices.
    - A Python [str] is a [string]; a character is an 8-bit code point
      ([ascii]).  Code points above 255 are outside the model.
    - A Python exception is a value of [exn]; a computation that may raise
      returns a [result].
    - [pathlib.PurePosixPath] is the record [Path]: the root (the empty
      string, one slash or two slashes) and the list of components after it.
    - The outside world (the extracted image, the tools [file] and
      [objdump], the symlinks, the removal of the extraction directory) is
      a record [World] of oracles; the script only reads it during the
      walk.
    - [set()] is a [gset string], the dict [wrong_arch] a
      [gmap Path string], the work list [deps] a [list string] whose END is
      the side [pop()] and [extend()] work on. *)

From Stdlib Require Import Ascii.
From stdpp Require Import gmap strings list fin_maps relations.

#[local] Set Warnings "-clear-no-such-hyp".


(** ** Exceptions and results *)

Inductive exn : Set :=
| IndexError
| ValueError
| OSError
| RuntimeError.

Inductive result (A : Type) : Type :=
| Ok (a : A)
| Raise (e : exn).
Arguments Ok {A} a.
Arguments Raise {A} e.

Global Instance result_ret : MRet result := λ A a, Ok a.
Global Instance result_bind : MBind result :=
  λ A B f m, match m with Ok a => f a | Raise e => Raise e end.
Global Instance result_fmap : FMap result :=
  λ A B f m, match m with Ok a => Ok (f a) | Raise e => Raise e end.

Global Instance exn_eq_dec : EqDecision exn.
Proof. solve_decision. Defined.

(** ** The string methods the script calls *)

Module PyStr.

Definition newline : ascii := ascii_of_nat 10.
Definition carriage_return : ascii := ascii_of_nat 13.

(** [str.isspace] on one character, for code points below 256. *)
Definition isspace (c : ascii) : bool :=
  let n := nat_of_ascii c in
  ((9 <=? n) && (n <=? 13)) || ((28 <=? n) && (n <=? 32))
  || (n =? 133) || (n =? 160).

(** The line boundaries of [str.splitlines], for code points below 256. *)
Definition is_linebreak (c : ascii) : bool :=
  let n := nat_of_ascii c in
  ((10 <=? n) && (n <=? 13)) || ((28 <=? n) && (n <=? 30)) || (n =? 133).

(** [s.split(sep)] for a separator of one character: one piece more than
    there are separators, so never the empty list. *)
Fixpoint split (sep : ascii) (s : string) : list string :=
  match s with
  | EmptyString => [EmptyString]
  | String c r =>
      if Ascii.eqb c sep then EmptyString :: split sep r
      else match split sep r with
           | [] => [String c EmptyString]
           | piece :: pieces => String c piece :: pieces
           end
  end.

(** [s.lstrip()], [s.rstrip()], [s.strip()]. *)
Fixpoint lstrip (s : string) : string :=
  match s with
  | EmptyString => EmptyString
  | String c r => if isspace c then lstrip r else s
  end.

Definition rstrip (s : string) : string := String.rev (lstrip (String.rev s)).

Definition strip (s : string) : string := rstrip (lstrip s).

(** [s.lstrip(c)] for one character [c]. *)
Fixpoint lstrip_char (c : ascii) (s : string) : string :=
  match s with
  | EmptyString => EmptyString
  | String d r => if Ascii.eqb d c then lstrip_char c r else s
  end.

(** [s.split()]: the maximal runs of non-space characters. *)
Fixpoint split_ws_go (cur : string) (s : string) : list string :=
  match s with
  | EmptyString => if decide (cur = EmptyString) then [] else [String.rev cur]
  | String c r =>
      if isspace c
      then (if decide (cur = EmptyString) then split_ws_go EmptyString r
            else String.rev cur :: split_ws_go EmptyString r)
      else split_ws_go (String c cur) r
  end.

Definition split_ws (s : string) : list string := split_ws_go EmptyString s.

(** [s.splitlines()]: a carriage return followed by a line feed is one
    boundary; a final boundary opens no empty last line. *)
Fixpoint splitlines_go (after_cr : bool) (cur : string) (s : string)
  : list string :=
  match s with
  | EmptyString => if decide (cur = EmptyString) then [] else [String.rev cur]
  | String c r =>
      if after_cr && Ascii.eqb c newline then splitlines_go false cur r
      else if is_linebreak c
           then String.rev cur
                  :: splitlines_go (Ascii.eqb c carriage_return) EmptyString r
           else splitlines_go false (String c cur) r
  end.

Definition splitlines (s : string) : list string :=
  splitlines_go false EmptyString s.

(** [needle in s]. *)
Fixpoint contains (needle s : string) : bool :=
  String.prefix needle s
  || match s with
     | EmptyString => false
     | String _ r => contains needle r
     end.

(** [s.startswith(p)]. *)
Definition startswith (p s : string) : bool := String.prefix p s.

(** [s.replace(a, b)] for one-character [a] and [b]. *)
Fixpoint replace (a b : ascii) (s : string) : string :=
  match s with
  | EmptyString => EmptyString
  | String c r => String (if Ascii.eqb c a then b else c) (replace a b r)
  end.

(** [s.lower()] restricted to texts of code points below 256, where it
    works character by character (beyond them it does not: U+0130 becomes
    two code points).  The theorems below hold whatever lowering the case
    does to a text; only the concrete images, which are ASCII, compute with
    it.  It lowers the letters A-Z and the
    Latin-1 capitals 192-222 except the multiplication sign 215. *)
Definition lower_char (c : ascii) : ascii :=
  let n := nat_of_ascii c in
  if ((65 <=? n) && (n <=? 90))
     || ((192 <=? n) && (n <=? 222) && negb (n =? 215))
  then ascii_of_nat (n + 32) else c.

Fixpoint lower (s : string) : string :=
  match s with
  | EmptyString => EmptyString
  | String c r => String (lower_char c) (lower r)
  end.

(** ["sep".join(pieces)] for a separator of one character. *)
Fixpoint join (sep : ascii) (pieces : list string) : string :=
  match pieces with
  | [] => EmptyString
  | [p] => p
  | p :: ps => p +:+ String sep (join sep ps)
  end.

(** [c in s] for one character. *)
Fixpoint has_char (c : ascii) (s : string) : bool :=
  match s with
  | EmptyString => false
  | String d r => Ascii.eqb d c || has_char c r
  end.

End PyStr.

(** [l[i]] on a Python list: [IndexError] out of range. *)
Definition py_index {A} (l : list A) (i : nat) : result A :=
  match l !! i with
  | Some x => Ok x
  | None => Raise IndexError
  end.

(** ** [detect_architecture], on the text [file] printed *)

(** The body of [detect_architecture] after [subprocess.run]: [stdout] is
    [result.stdout]. *)
Definition architecture_of_output (stdout : string) : result string :=
  if length (PyStr.split ","%char stdout) =? 0 then
    (* File not found *)
    Ok ""
  else
    field ← py_index (PyStr.split ","%char stdout) 1;
    Ok (PyStr.strip field).


(** ** [pathlib] paths *)

(** A [PurePosixPath] after parsing: [root] is the anchor (the drive is
    always empty on POSIX) and [parts] the components after it. *)
Record Path : Type := MkPath { root : string; parts : list string }.

Global Instance Path_eq_dec : EqDecision Path.
Proof. solve_decision. Defined.

Global Program Instance Path_countable : Countable Path :=
  inj_countable' (λ p, (root p, parts p)) (λ rp, MkPath rp.1 rp.2) _.
Next Obligation. by intros []. Qed.

Module PurePath.

(** [_PosixFlavour.splitroot]: exactly two leading slashes are kept as a
    root of their own, any other number is one slash. *)
Definition splitroot (part : string) : string * string :=
  if PyStr.startswith "/" part then
    let stripped_part := PyStr.lstrip_char "/"%char part in
    if String.length part - String.length stripped_part =? 2
    then ("//", stripped_part)
    else ("/", stripped_part)
  else ("", part).

(** [if x and x != '.'] in [parse_parts]. *)
Definition kept (x : string) : Prop := x ≠ "" ∧ x ≠ ".".

Global Instance kept_dec x : Decision (kept x).
Proof. unfold kept. apply _. Defined.

(** [pathlib.Path(s)] for one string. *)
Definition parse (s : string) : Path :=
  let '(root, rel) := splitroot s in
  MkPath root (filter kept (PyStr.split "/"%char rel)).

(** [join_parsed_parts] without drives: an anchored second path replaces
    the first. *)
Definition joinpath (p q : Path) : Path :=
  if decide (root q ≠ "") then q
  else MkPath (root p) (parts p ++ parts q).

(** [pathlib.Path(a, b)]. *)
Definition parse2 (a b : string) : Path := joinpath (parse a) (parse b).

(** [path.anchor]. *)
Definition anchor (p : Path) : string := root p.

(** [abs_parts] and [to_abs_parts] in [relative_to] (Python 3.8): the drive
    and the root in front of the components when the path is anchored. *)
Definition abs_parts (p : Path) : list string :=
  if decide (root p ≠ "") then "" :: root p :: parts p else parts p.

(** [self.relative_to(other)]: [ValueError] unless [other] is a prefix. *)
Definition relative_to (self other : Path) : result Path :=
  let abs := abs_parts self in
  let to_abs := abs_parts other in
  let n := length to_abs in
  if (if n =? 0 then bool_decide (root self ≠ "")
      else bool_decide (take n abs ≠ to_abs))
  then Raise ValueError
  else Ok (MkPath (if n =? 1 then root self else "") (drop n abs)).

End PurePath.

(** [relative_to_root]. *)
Definition relative_to_root (path : string) : result Path :=
  let path := PurePath.parse path in
  PurePath.relative_to path (PurePath.parse (PurePath.anchor path)).

(** ** The outside world *)

(** What the script observes of the extracted image and of the tools it
    runs.  Each oracle may raise (a tool that cannot be started, a symlink
    loop, an unacceptable glob pattern). *)
Record World : Type := {
  (** [subprocess.run(['file', target], cwd=cwd).stdout] *)
  file_stdout : Path → Path → result string;
  (** [subprocess.run(['objdump', '--private-headers', target], cwd=cwd).stdout] *)
  objdump_stdout : Path → Path → result string;
  (** [list(root_dir.glob(pattern))] *)
  glob : Path → string → result (list Path);
  (** [path.is_symlink()] *)
  is_symlink : Path → bool;
  (** [os.readlink(path)] *)
  readlink : Path → result string;
  (** [path.resolve()] *)
  resolve : Path → result Path;
  (** [shutil.rmtree(path)]: it may raise (a file that cannot be removed) *)
  rmtree : Path → result ();
}.

Definition IMAGE_DIR : string := ".test-images".

Definition replace_img_special_chars (image_ref : string) : string :=
  PyStr.replace ":"%char "_"%char
    (PyStr.replace "/"%char "_"%char (PyStr.lower image_ref)).

Definition detect_architecture (w : World) (cwd target_binary : Path)
  : result string :=
  stdout ← file_stdout w cwd target_binary;
  architecture_of_output stdout.

(** The loop of [detect_dependencies] over the lines [objdump] printed. *)
Fixpoint needed_of_lines (lines : list string) (deps : list string)
  : result (list string) :=
  match lines with
  | [] => Ok deps
  | line :: lines =>
      if PyStr.contains "NEEDED" line then
        name ← py_index (PyStr.split_ws line) 1;
        needed_of_lines lines (deps ++ [name])
      else needed_of_lines lines deps
  end.

Definition detect_dependencies (w : World) (cwd target_binary : Path)
  : result (list string) :=
  stdout ← objdump_stdout w cwd target_binary;
  needed_of_lines (PyStr.splitlines stdout) [].

Definition find_dependencies_with_name (w : World) (root_dir : Path)
    (dependency_name : string) : result (list Path) :=
  glob w root_dir ("**/" +:+ dependency_name).

Definition resolve_container_link (w : World) (root_dir link : Path)
  : result Path :=
  resolved ← readlink w link;
  if PyStr.startswith "/" resolved then
    rel ← relative_to_root resolved;
    Ok (PurePath.joinpath root_dir rel)
  else
    real ← resolve w link;
    real_root ← resolve w root_dir;
    PurePath.relative_to real real_root.

(** ** The closure walk of [main] *)

(** The Closure State together with the work list. *)
Record State : Type := MkState {
  deps : list string;
  seen : gset string;
  missing : gset string;
  wrong_arch : gmap Path string;
}.

Definition set_deps (d : list string) (st : State) : State :=
  MkState d (seen st) (missing st) (wrong_arch st).
Definition add_seen (x : string) (st : State) : State :=
  MkState (deps st) (seen st ∪ {[x]}) (missing st) (wrong_arch st).
Definition add_missing (x : string) (st : State) : State :=
  MkState (deps st) (seen st) (missing st ∪ {[x]}) (wrong_arch st).
Definition set_wrong_arch (p : Path) (a : string) (st : State) : State :=
  MkState (deps st) (seen st) (missing st) (<[p := a]> (wrong_arch st)).
Definition extend_deps (new : list string) (st : State) : State :=
  MkState (deps st ++ new) (seen st) (missing st) (wrong_arch st).

(** [deps.pop()]: the last element and the list without it. *)
Definition pop {A} (l : list A) : option (A * list A) :=
  match reverse l with
  | [] => None
  | x :: r => Some (x, reverse r)
  end.

Inductive outcome (A : Type) : Type :=
| Finished (a : A)
| Crashed (e : exn)
| OutOfFuel.
Arguments Finished {A} a.
Arguments Crashed {A} e.
Arguments OutOfFuel {A}.

Section Walk.
Variable w : World.
Variable output_dir : Path.
Variable target_binary_arch : string.

(** The symlink step of the [for] loop: the path whose header is read. *)
Definition real_dep_path (dep_path : Path) : result Path :=
  if is_symlink w dep_path then resolve_container_link w output_dir dep_path
  else Ok dep_path.

(** One turn of [for dep_path in dep_paths]. *)
Definition visit_dep_path (st : State) (dep_path : Path) : result State :=
  dep_path ← real_dep_path dep_path;
  dep_arch ← detect_architecture w output_dir dep_path;
  if decide (dep_arch ≠ target_binary_arch) then
    Ok (set_wrong_arch dep_path dep_arch st)
  else
    current_dependencies ← detect_dependencies w output_dir dep_path;
    Ok (extend_deps current_dependencies st).

Fixpoint for_dep_paths (dep_paths : list Path) (st : State) : result State :=
  match dep_paths with
  | [] => Ok st
  | dep_path :: dep_paths =>
      st ← visit_dep_path st dep_path;
      for_dep_paths dep_paths st
  end.

(** The body of the [while] loop after [current = deps.pop()]; [st]
    already has the shortened work list. *)
Definition visit (current : string) (st : State) : result State :=
  if decide (current ∈ seen st) then Ok st
  else
    let st := add_seen current st in
    dep_paths ← find_dependencies_with_name w output_dir current;
    match dep_paths with
    | [] => Ok (add_missing current st)
    | _ => for_dep_paths dep_paths st
    end.

(** [while deps: ...], one unit of fuel per turn. *)
Fixpoint closure_walk (fuel : nat) (st : State) : outcome State :=
  match pop (deps st) with
  | None => Finished st
  | Some (current, rest) =>
      match fuel with
      | 0 => OutOfFuel
      | S fuel =>
          match visit current (set_deps rest st) with
          | Raise e => Crashed e
          | Ok st => closure_walk fuel st
          end
      end
  end.

End Walk.

(** What [main] does to the file system, in order. *)
Inductive fs_effect : Type :=
| Mkdir (dir : Path)
| UntarImage (image_ref : string) (dir : Path)
| Rmtree (dir : Path).

Global Instance fs_effect_eq_dec : EqDecision fs_effect.
Proof. solve_decision. Defined.

(** A run of [main] that reaches [sys.exit]. *)
Record Report : Type := MkReport {
  closure : State;
  exit_code : Z;
  effects : list fs_effect;
}.

(** [exit_code] as [main] computes it from the two failure collections. *)
Definition exit_code_of (st : State) : Z :=
  let exit_code := 0%Z in
  let exit_code := if decide (wrong_arch st ≠ ∅) then 1%Z else exit_code in
  let exit_code := if decide (missing st ≠ ∅) then 1%Z else exit_code in
  exit_code.

Definition initial_state (deps : list string) : State := MkState deps ∅ ∅ ∅.

(** [main].  [w] is the world once the image is extracted; the [docker]
    and [tar] commands are the effect [UntarImage].  [pathlib.Path] of a
    path is that path, so [relative_to_root] takes the text of
    [target_binary].  The [print] calls are left out.  [shutil.rmtree]
    runs before [sys.exit]: when it raises, the exit call is not reached
    and the run ends with that exception. *)
Definition main (w : World) (fuel : nat) (image_ref target_binary : string)
    (clean : bool) : outcome Report :=
  let container_name := replace_img_special_chars image_ref in
  let output_dir := PurePath.parse2 IMAGE_DIR container_name in
  match relative_to_root target_binary with
  | Raise e => Crashed e
  | Ok target_binary =>
  let setup := [Mkdir output_dir; UntarImage image_ref output_dir] in
  match detect_architecture w output_dir target_binary with
  | Raise e => Crashed e
  | Ok target_binary_arch =>
  match detect_dependencies w output_dir target_binary with
  | Raise e => Crashed e
  | Ok deps =>
  match closure_walk w output_dir target_binary_arch fuel (initial_state deps) with
  | OutOfFuel => OutOfFuel
  | Crashed e => Crashed e
  | Finished st =>
      let exit_code := exit_code_of st in
      if clean then
        match rmtree w output_dir with
        | Raise e => Crashed e
        | Ok _ => Finished (MkReport st exit_code (setup ++ [Rmtree output_dir]))
        end
      else Finished (MkReport st exit_code setup)
  end end end end.

(** ** Notions the specification is stated with *)

(** A run that finished with a result on which the test [P] holds. *)
Definition finished_with {A} (P : A → bool) (o : outcome A) : bool :=
  match o with
  | Finished a => P a
  | Crashed _ | OutOfFuel => false
  end.

(** The extraction root [main] works in. *)
Definition output_dir_of (image_ref : string) : Path :=
  PurePath.parse2 IMAGE_DIR (replace_img_special_chars image_ref).

Section Notions.
Variable w : World.
Variable output_dir : Path.
Variable target_binary_arch : string.

(** One turn of the [while] loop as a relation: [pop()] takes the last
    name. *)
Definition walk_step (st st' : State) : Prop :=
  ∃ current rest,
    pop (deps st) = Some (current, rest)
    ∧ visit w output_dir target_binary_arch current (set_deps rest st) = Ok st'.

(** One turn under an arbitrary work-queue discipline: any queued name is
    taken, the loop body of the script runs on the others, and the queue
    may then be put in any order. *)
Definition any_step (st st' : State) : Prop :=
  ∃ current rest st1,
    deps st ≡ₚ current :: rest
    ∧ visit w output_dir target_binary_arch current (set_deps rest st) = Ok st1
    ∧ deps st' ≡ₚ deps st1
    ∧ seen st' = seen st1
    ∧ missing st' = missing st1
    ∧ wrong_arch st' = wrong_arch st1.

(** The walk with a first-in first-out queue: the name at the FRONT is
    taken, new names still go to the end. *)
Fixpoint fifo_walk (fuel : nat) (st : State) : outcome State :=
  match deps st with
  | [] => Finished st
  | current :: rest =>
      match fuel with
      | 0 => OutOfFuel
      | S fuel =>
          match visit w output_dir target_binary_arch current (set_deps rest st) with
          | Raise e => Crashed e
          | Ok st => fifo_walk fuel st
          end
      end
  end.

(** The names the walk may expand to from the work list [deps0]: a name is
    followed only through a file that was found for it and whose
    architecture is the target's. *)
Inductive Reach (deps0 : list string) : string → Prop :=
| Reach_start n : n ∈ deps0 → Reach deps0 n
| Reach_needed n dep_paths dep_path real needed m :
    Reach deps0 n →
    find_dependencies_with_name w output_dir n = Ok dep_paths →
    dep_path ∈ dep_paths →
    real_dep_path w output_dir dep_path = Ok real →
    detect_architecture w output_dir real = Ok target_binary_arch →
    detect_dependencies w output_dir real = Ok needed →
    m ∈ needed →
    Reach deps0 m.

(** What the whole [for] loop over [dep_paths] did between [st] and
    [st']. *)
Record scanned (dep_paths : list Path) (st st' : State) : Prop := {
  scan_seen : seen st' = seen st;
  scan_missing : missing st' = missing st;
  scan_deps :
    ∃ new, deps st' = deps st ++ new
      ∧ ∀ m, m ∈ new →
          ∃ dep_path real needed,
            dep_path ∈ dep_paths
            ∧ real_dep_path w output_dir dep_path = Ok real
            ∧ detect_architecture w output_dir real = Ok target_binary_arch
            ∧ detect_dependencies w output_dir real = Ok needed
            ∧ m ∈ needed;
  scan_each :
    ∀ dep_path, dep_path ∈ dep_paths →
      ∃ real arch,
        real_dep_path w output_dir dep_path = Ok real
        ∧ detect_architecture w output_dir real = Ok arch
        ∧ (arch ≠ target_binary_arch → wrong_arch st' !! real = Some arch)
        ∧ (arch = target_binary_arch →
           ∃ needed, detect_dependencies w output_dir real = Ok needed
                     ∧ ∀ m, m ∈ needed → m ∈ deps st');
  scan_wrong_new :
    ∀ real arch, wrong_arch st' !! real = Some arch →
      wrong_arch st !! real = Some arch
      ∨ (arch ≠ target_binary_arch
         ∧ detect_architecture w output_dir real = Ok arch
         ∧ ∃ dep_path, dep_path ∈ dep_paths
                       ∧ real_dep_path w output_dir dep_path = Ok real);
  scan_wrong_old :
    ∀ real arch, wrong_arch st !! real = Some arch →
      detect_architecture w output_dir real = Ok arch →
      wrong_arch st' !! real = Some arch;
}.

(** The invariant of the walk started on [deps0], under every queue
    discipline: what is seen was reached and has been classified, what
    remains to be done is in the work list. *)
Record walk_inv (deps0 : list string) (st : State) : Prop := {
  inv_start : ∀ n, n ∈ deps0 → n ∈ seen st ∨ n ∈ deps st;
  inv_reach_seen : ∀ n, n ∈ seen st → Reach deps0 n;
  inv_reach_deps : ∀ n, n ∈ deps st → Reach deps0 n;
  inv_missing :
    ∀ n, n ∈ missing st
         ↔ n ∈ seen st ∧ find_dependencies_with_name w output_dir n = Ok [];
  inv_visited :
    ∀ n, n ∈ seen st →
      ∃ dep_paths,
        find_dependencies_with_name w output_dir n = Ok dep_paths
        ∧ ∀ dep_path, dep_path ∈ dep_paths →
            ∃ real arch,
              real_dep_path w output_dir dep_path = Ok real
              ∧ detect_architecture w output_dir real = Ok arch
              ∧ (arch ≠ target_binary_arch →
                 wrong_arch st !! real = Some arch)
              ∧ (arch = target_binary_arch →
                 ∃ needed,
                   detect_dependencies w output_dir real = Ok needed
                   ∧ ∀ m, m ∈ needed → m ∈ seen st ∨ m ∈ deps st);
  inv_wrong :
    ∀ real arch, wrong_arch st !! real = Some arch →
      arch ≠ target_binary_arch
      ∧ detect_architecture w output_dir real = Ok arch
      ∧ ∃ n dep_paths dep_path,
          n ∈ seen st
          ∧ find_dependencies_with_name w output_dir n = Ok dep_paths
          ∧ dep_path ∈ dep_paths
          ∧ real_dep_path w output_dir dep_path = Ok real;
}.

(** Every name the files of [files] can contribute to the work list. *)
Definition needed_by (dep_path : Path) : list string :=
  match real_dep_path w output_dir dep_path with
  | Ok real =>
      match detect_dependencies w output_dir real with
      | Ok needed => needed
      | Raise _ => []
      end
  | Raise _ => []
  end.

Definition name_space (deps0 : list string) (files : list Path) : list string :=
  deps0 ++ (files ≫= needed_by).

End Notions.

(** Lexical normal form of a list of components ([os.path.normpath]): a
    [..] cancels the component before it; at the start it is dropped under
    a root and kept otherwise.  [stack] holds the result so far, reversed. *)
Fixpoint collapse (anchored : bool) (stack : list string) (comps : list string)
  : list string :=
  match comps with
  | [] => reverse stack
  | c :: comps =>
      if decide (c = "..") then
        match stack with
        | top :: below =>
            if decide (top = "..") then collapse anchored (c :: stack) comps
            else collapse anchored below comps
        | [] =>
            if anchored then collapse anchored [] comps
            else collapse anchored [c] comps
        end
      else collapse anchored (c :: stack) comps
  end.

Definition normalize (p : Path) : Path :=
  MkPath (root p) (collapse (bool_decide (root p ≠ "")) [] (parts p)).

(** [p] denotes, lexically, a location at or below [root_dir]. *)
Definition lexically_inside (root_dir p : Path) : Prop :=
  root (normalize p) = root (normalize root_dir)
  ∧ parts (normalize root_dir) `prefix_of` parts (normalize p).

Global Instance lexically_inside_dec root_dir p :
  Decision (lexically_inside root_dir p).
Proof. unfold lexically_inside. apply _. Defined.

(** A path component as [pathlib] keeps it: not empty, not a single dot, no
    slash inside. *)
Definition component (c : string) : Prop :=
  PurePath.kept c ∧ PyStr.has_char "/"%char c = false.

(** ** Concrete images *)

Module Fixtures.

Definition nl : string := String PyStr.newline "".

(** What [file] prints for an ELF object and for a path it cannot open. *)
Definition elf_x86_64 (name : string) : string :=
  name +:+ ": ELF 64-bit LSB shared object, x86-64, version 1 (SYSV), dynamically linked, stripped" +:+ nl.
Definition elf_aarch64 (name : string) : string :=
  name +:+ ": ELF 64-bit LSB shared object, ARM aarch64, version 1 (SYSV), dynamically linked, stripped" +:+ nl.
Definition cannot_open (name : string) : string :=
  name +:+ ": cannot open `" +:+ name +:+ "' (No such file or directory)" +:+ nl.

(** What [objdump --private-headers] prints, cut down to the dynamic
    section. *)
Definition needed_line (n : string) : string :=
  "  NEEDED               " +:+ n +:+ nl.
Definition objdump_text (name : string) (needed : list string) : string :=
  nl +:+ name +:+ ":     file format elf64-little" +:+ nl +:+ nl
  +:+ "Dynamic Section:" +:+ nl
  +:+ foldr (λ n acc, needed_line n +:+ acc) "" needed
  +:+ "  INIT                 0x0000000000004000" +:+ nl.

Definition P (s : string) : Path := PurePath.parse s.

(** A table keyed by path, written with the paths as text. *)
Fixpoint assoc {A} (tbl : list (string * A)) (p : Path) : option A :=
  match tbl with
  | [] => None
  | (k, v) :: tbl => if decide (P k = p) then Some v else assoc tbl p
  end.

Definition image_ref : string := "registry.k8s.io/dns/k8s-dns-dnsmasq-nanny:1.22.3".
Definition target : string := "/usr/sbin/dnsmasq".
Definition out : Path :=
  PurePath.parse2 IMAGE_DIR (replace_img_special_chars image_ref).
Definition out_text : string :=
  ".test-images/registry.k8s.io_dns_k8s-dns-dnsmasq-nanny_1.22.3".

(** An image described by its ELF files (path relative to the image root,
    x86-64 or not, NEEDED names), the result of each glob, and its
    symlinks (link, target text, resolved absolute path).  The tools run
    with the image root as working directory, so they only open paths
    relative to it. *)
Definition image (elfs : list (string * (bool * list string)))
    (globs : list (string * list string))
    (links : list (string * (string * string))) : World := {|
  file_stdout := λ cwd t,
    Ok (match assoc elfs t with
        | Some (true, _) => elf_x86_64 (PyStr.join "/"%char (parts t))
        | Some (false, _) => elf_aarch64 (PyStr.join "/"%char (parts t))
        | None => cannot_open (PyStr.join "/"%char (parts t))
        end);
  objdump_stdout := λ cwd t,
    Ok (match assoc elfs t with
        | Some (_, needed) => objdump_text (PyStr.join "/"%char (parts t)) needed
        | None => ""
        end);
  glob := λ root_dir pattern,
    Ok (match list_find (λ g, g.1 = pattern) globs with
        | Some (_, (_, found)) => (λ f, PurePath.joinpath root_dir (P f)) <$> found
        | None => []
        end);
  is_symlink := λ p, bool_decide (is_Some (assoc links p));
  readlink := λ p,
    match assoc links p with
    | Some (text, _) => Ok text
    | None => Raise OSError
    end;
  resolve := λ p,
    match assoc links p with
    | Some (_, real) => Ok (P real)
    | None => Ok (PurePath.joinpath (P "/work") p)
    end;
  rmtree := λ _, Ok ();
|}.

(** Scenario A: the target needs [libc.so.6] only, a link to an x86-64
    library that needs nothing. *)
Definition scenario_A : World :=
  image [("usr/sbin/dnsmasq", (true, ["libc.so.6"]));
         ("lib/x86_64-linux-gnu/libc-2.31.so", (true, []))]
        [("**/libc.so.6", ["lib/x86_64-linux-gnu/libc.so.6"])]
        [(out_text +:+ "/lib/x86_64-linux-gnu/libc.so.6",
           ("libc-2.31.so",
            "/work/" +:+ out_text +:+ "/lib/x86_64-linux-gnu/libc-2.31.so"))].

(** Scenario B: the target needs [libfoo.so], which the image lacks. *)
Definition scenario_B : World :=
  image [("usr/sbin/dnsmasq", (true, ["libfoo.so"]))] [] [].

(** [libc.so.6] is a regular file: the glob yields it under the image
    root, where [file], run inside the image root, cannot open it. *)
Definition regular_file_image : World :=
  image [("usr/sbin/dnsmasq", (true, ["libc.so.6"]));
         ("lib/libc.so.6", (true, []))]
        [("**/libc.so.6", ["lib/libc.so.6"])] [].

(** An image with both architectures: [libc.so.6] is found twice (x86-64
    and aarch64), [libfoo.so] is absent, [libbar.so] is aarch64 only and
    would need [libbaz.so]. *)
Definition mixed : World :=
  image
    [("usr/sbin/dnsmasq", (true, ["libc.so.6"; "libfoo.so"; "libbar.so"]));
     ("lib/x86_64-linux-gnu/libc-2.31.so", (true, ["ld-linux-x86-64.so.2"]));
     ("lib/aarch64-linux-gnu/libc-2.31.so", (false, ["ld-linux-aarch64.so.1"]));
     ("lib/x86_64-linux-gnu/ld-2.31.so", (true, []));
     ("usr/lib/libbar.so.1.0", (false, ["libbaz.so"; "libc.so.6"]))]
    [("**/libc.so.6", ["lib/x86_64-linux-gnu/libc.so.6";
                       "lib/aarch64-linux-gnu/libc.so.6"]);
     ("**/ld-linux-x86-64.so.2", ["lib64/ld-linux-x86-64.so.2"]);
     ("**/libbar.so", ["usr/lib/libbar.so"])]
    [(out_text +:+ "/lib/x86_64-linux-gnu/libc.so.6",
       ("libc-2.31.so",
        "/work/" +:+ out_text +:+ "/lib/x86_64-linux-gnu/libc-2.31.so"));
     (out_text +:+ "/lib/aarch64-linux-gnu/libc.so.6",
       ("libc-2.31.so",
        "/work/" +:+ out_text +:+ "/lib/aarch64-linux-gnu/libc-2.31.so"));
     (out_text +:+ "/lib64/ld-linux-x86-64.so.2",
       ("../lib/x86_64-linux-gnu/ld-2.31.so",
        "/work/" +:+ out_text +:+ "/lib/x86_64-linux-gnu/ld-2.31.so"));
     (out_text +:+ "/usr/lib/libbar.so",
       ("libbar.so.1.0",
        "/work/" +:+ out_text +:+ "/usr/lib/libbar.so.1.0"))].

Definition mixed_files : list Path :=
  (λ f, PurePath.joinpath out (P f)) <$>
    ["lib/x86_64-linux-gnu/libc.so.6"; "lib/aarch64-linux-gnu/libc.so.6";
     "lib64/ld-linux-x86-64.so.2"; "usr/lib/libbar.so"].

(** Symlinks with absolute targets, under an absolute and under a
    relative extraction root. *)
Definition links : World :=
  image [] []
    [("/srv/img/lib/libc.so.6", ("/lib/x86_64-linux-gnu/libc.so.6", "/lib/x86_64-linux-gnu/libc.so.6"));
     ("/srv/img/lib/libevil.so", ("/../../etc/passwd", "/etc/passwd"));
     (out_text +:+ "/lib/libevil.so", ("/../../etc/passwd", "/etc/passwd"));
     ("/srv/img/lib/libm.so.6", ("libm-2.31.so", "/srv/img/lib/libm-2.31.so"));
     ("/srv/img/lib/libout.so", ("../../../etc/passwd", "/etc/passwd"))].

End Fixtures.

(** ** Further notions for the properties of the single functions *)

(** [any(p(c) for c in s)]. *)
Fixpoint str_any (p : ascii → bool) (s : string) : bool :=
  match s with
  | EmptyString => false
  | String c r => p c || str_any p r
  end.

(** A token as [str.split()] yields them: not empty, no white space. *)
Definition token (s : string) : Prop :=
  s ≠ "" ∧ str_any PyStr.isspace s = false.

(** The first, resp. the last, character of [s] is white space. *)
Definition starts_with_space (s : string) : bool :=
  match s with
  | EmptyString => false
  | String c _ => PyStr.isspace c
  end.

Definition ends_with_space (s : string) : bool :=
  starts_with_space (String.rev s).

(** The script run from the command line.  [--skip-clean] is declared with
    [action="store_false"]: [args.skip_clean] is [True] unless the flag is
    given, and it is passed to [main] as [clean]. *)
Record Namespace : Type := MkNamespace {
  args_image : string;
  args_target_bin : string;
  args_skip_clean : bool;
}.

Definition parse_args (image target_bin : string) (skip_clean_given : bool)
  : Namespace :=
  MkNamespace image target_bin (negb skip_clean_given).

Definition script (w : World) (fuel : nat) (args : Namespace) : outcome Report :=
  main w fuel (args_image args) (args_target_bin args) (args_skip_clean args).

(** The status the process ends with: the argument of [sys.exit], or 1
    when an exception is not caught (the interpreter prints the traceback
    and exits with 1). *)
Definition exit_status (o : outcome Report) : option Z :=
  match o with
  | Finished r => Some (exit_code r)
  | Crashed _ => Some 1%Z
  | OutOfFuel => None
  end.


(** The world [w] with an extraction directory that cannot be removed. *)
Definition failing_cleanup (w : World) : World := {|
  file_stdout := file_stdout w;
  objdump_stdout := objdump_stdout w;
  glob := glob w;
  is_symlink := is_symlink w;
  readlink := readlink w;
  resolve := resolve w;
  rmtree := λ _, Raise OSError;
|}.

(** The first [k] turns of the [while] loop (fewer when the work list is
    empty before). *)
Fixpoint turns (w : World) (output_dir : Path) (target_binary_arch : string)
    (k : nat) (st : State) : result State :=
  match k with
  | 0 => Ok st
  | S k =>
      match pop (deps st) with
      | None => Ok st
      | Some (current, rest) =>
          st ← visit w output_dir target_binary_arch current (set_deps rest st);
          turns w output_dir target_binary_arch k st
      end
  end.

(** A computation that returned a value on which the test [P] holds. *)
Definition ok_with {A} (P : A → bool) (r : result A) : bool :=
  match r with
  | Ok a => P a
  | Raise _ => false
  end.

(** An image whose target is linked statically, and an image without the
    target. *)
Definition static_image : World :=
  Fixtures.image [("usr/sbin/dnsmasq", (true, []))] [] [].

Definition empty_image : World := Fixtures.image [] [] [].

(** * Theorems *)

Example split_demo : PyStr.split ","%char "a,b,,c" = ["a"; "b"; ""; "c"].
Proof. reflexivity. Qed.
Example strip_demo : PyStr.strip "  x86-64 " = "x86-64".
Proof. reflexivity. Qed.
Example splitlines_demo :
  PyStr.splitlines ("a" +:+ String PyStr.carriage_return (String PyStr.newline ("b" +:+ String PyStr.newline "")))
  = ["a"; "b"].
Proof. reflexivity. Qed.
Example split_ws_demo : PyStr.split_ws "  NEEDED   libc.so.6 " = ["NEEDED"; "libc.so.6"].
Proof. reflexivity. Qed.

(** ** [detect_architecture] *)

Lemma split_not_nil sep s : PyStr.split sep s ≠ [].
Proof.
  induction s as [|c s IH]; simpl; [done|].
  destruct (Ascii.eqb c sep); [done|].
  by destruct (PyStr.split sep s).
Qed.

Lemma split_without_sep sep s :
  PyStr.has_char sep s = false → PyStr.split sep s = [s].
Proof.
  induction s as [|c s IH]; simpl; [done|].
  destruct (Ascii.eqb c sep); simpl; [done|].
  intros Hs. by rewrite (IH Hs).
Qed.

(** The guard [len(...) == 0] never holds, so the branch that returns the
    empty tag is dead. *)
Lemma architecture_of_output_indexes stdout :
  architecture_of_output stdout
  = field ← py_index (PyStr.split ","%char stdout) 1; Ok (PyStr.strip field).
Proof.
  unfold architecture_of_output.
  pose proof (split_not_nil ","%char stdout) as Hne.
  by destruct (PyStr.split ","%char stdout).
Qed.

(** Output without a comma raises [IndexError], in every world. *)
Lemma detect_architecture_without_comma w cwd target_binary stdout :
  file_stdout w cwd target_binary = Ok stdout →
  PyStr.has_char ","%char stdout = false →
  detect_architecture w cwd target_binary = Raise IndexError.
Proof.
  intros Hout Hcomma. unfold detect_architecture. rewrite Hout. simpl.
  rewrite architecture_of_output_indexes, (split_without_sep _ _ Hcomma).
  reflexivity.
Qed.

(** C1 (the code departs from the claim): probing a path [file] cannot
    open does not give an empty architecture tag.  [file] prints a line
    without a comma, [split(",")] has one piece only, the guard
    [len(...) == 0] is false and [[1]] raises [IndexError]; the whole run
    stops with that exception instead of classifying the dependency. *)
Theorem detect_architecture_missing_file_raises :
  architecture_of_output (Fixtures.cannot_open "lib/libfoo.so") = Raise IndexError
  ∧ architecture_of_output "" = Raise IndexError
  ∧ detect_architecture Fixtures.regular_file_image Fixtures.out
      (PurePath.joinpath Fixtures.out (Fixtures.P "lib/libc.so.6"))
    = Raise IndexError
  ∧ main Fixtures.regular_file_image 1 Fixtures.image_ref Fixtures.target true
    = Crashed IndexError.
Proof. repeat split; vm_compute; reflexivity. Qed.

(** ** Paths *)

Lemma splitroot_root s :
  (PurePath.splitroot s).1 = "" ∨ (PurePath.splitroot s).1 = "/"
  ∨ (PurePath.splitroot s).1 = "//".
Proof.
  unfold PurePath.splitroot.
  destruct (PyStr.startswith "/" s); [|by left].
  destruct (_ =? 2); simpl; auto.
Qed.

Lemma parse_root s :
  root (PurePath.parse s) = "" ∨ root (PurePath.parse s) = "/"
  ∨ root (PurePath.parse s) = "//".
Proof.
  unfold PurePath.parse. pose proof (splitroot_root s) as H.
  by destruct (PurePath.splitroot s).
Qed.

(** [relative_to_root] never raises: it drops the anchor and keeps the
    components. *)
Lemma relative_to_root_spec s :
  relative_to_root s = Ok (MkPath "" (parts (PurePath.parse s))).
Proof.
  unfold relative_to_root, PurePath.anchor.
  destruct (PurePath.parse s) as [r ps] eqn:Hp.
  pose proof (parse_root s) as Hr. rewrite Hp in Hr. simpl in *.
  destruct Hr as [-> | [-> | ->]]; vm_compute; try reflexivity.
  all: rewrite drop_0 || idtac; reflexivity.
Qed.

Lemma split_app_sep sep p rest :
  PyStr.has_char sep p = false →
  PyStr.split sep (p +:+ String sep rest) = p :: PyStr.split sep rest.
Proof.
  induction p as [|c p IH]; simpl.
  - intros _. by rewrite Ascii.eqb_refl.
  - destruct (Ascii.eqb c sep); simpl; [done|].
    intros Hp. by rewrite (IH Hp).
Qed.

Lemma split_join sep comps :
  comps ≠ [] →
  Forall (λ c, PyStr.has_char sep c = false) comps →
  PyStr.split sep (PyStr.join sep comps) = comps.
Proof.
  intros Hne Hall. induction Hall as [|c comps Hc Hall IH]; [done|].
  destruct comps as [|c' comps].
  - simpl. by apply split_without_sep.
  - change (PyStr.join sep (c :: c' :: comps))
      with (c +:+ String sep (PyStr.join sep (c' :: comps))).
    rewrite split_app_sep by done. by rewrite IH.
Qed.

Lemma lstrip_char_join sep comps :
  Forall (λ c, c ≠ "" ∧ PyStr.has_char sep c = false) comps →
  PyStr.lstrip_char sep (PyStr.join sep comps) = PyStr.join sep comps.
Proof.
  destruct 1 as [|c comps [Hc Hs] _]; [done|].
  destruct c as [|a c]; [done|]. simpl in Hs.
  apply orb_false_iff in Hs as [Ha _].
  destruct comps; simpl; by rewrite Ha.
Qed.

Lemma splitroot_one_slash rel :
  PyStr.lstrip_char "/"%char rel = rel →
  PurePath.splitroot (String "/"%char rel) = ("/", rel).
Proof.
  intros Hrel. unfold PurePath.splitroot.
  replace (PyStr.startswith "/" (String "/"%char rel)) with true
    by (by destruct rel).
  change (PyStr.lstrip_char "/"%char (String "/"%char rel))
    with (PyStr.lstrip_char "/"%char rel).
  rewrite Hrel. cbn [String.length].
  by replace (S (String.length rel) - String.length rel) with 1 by lia.
Qed.

(** The text of an absolute path parses to its components under the root
    of one slash. *)
Lemma parse_absolute comps :
  Forall component comps →
  PurePath.parse ("/" +:+ PyStr.join "/"%char comps) = MkPath "/" comps.
Proof.
  intros Hall. unfold PurePath.parse.
  change ("/" +:+ PyStr.join "/"%char comps)
    with (String "/"%char (PyStr.join "/"%char comps)).
  rewrite splitroot_one_slash.
  2:{ apply lstrip_char_join. eapply Forall_impl; [done|]. by intros c [[] ?]. }
  f_equal.
  destruct (decide (comps = [])) as [->|Hne]; [done|].
  rewrite split_join; [|done|by eapply Forall_impl; [done|]; intros c []].
  clear Hne. induction Hall as [|c comps [Hc _] _ IH]; [done|].
  by rewrite filter_cons_True, IH.
Qed.

(** An absolute link target is re-rooted, whatever its components are. *)
Lemma resolve_container_link_absolute w root_dir link target :
  readlink w link = Ok target →
  PyStr.startswith "/" target = true →
  resolve_container_link w root_dir link
  = Ok (MkPath (root root_dir)
          (parts root_dir ++ parts (PurePath.parse target))).
Proof.
  intros Hlink Habs. unfold resolve_container_link.
  rewrite Hlink. simpl. rewrite Habs, relative_to_root_spec. simpl.
  reflexivity.
Qed.

(** C4: a symlink whose target is the absolute path [/c1/.../cn] resolves,
    under every extraction root [R], to [R/c1/.../cn]: the root of [R]
    followed by the components of [R] and then those of the target.  Unless
    [R] is the host root [/] itself, that is not the host path
    [/c1/.../cn]. *)
Theorem absolute_link_is_rerooted w root_dir link comps :
  Forall component comps →
  readlink w link = Ok ("/" +:+ PyStr.join "/"%char comps) →
  resolve_container_link w root_dir link
  = Ok (MkPath (root root_dir) (parts root_dir ++ comps))
  ∧ (root_dir ≠ PurePath.parse "/" →
     resolve_container_link w root_dir link
     ≠ Ok (PurePath.parse ("/" +:+ PyStr.join "/"%char comps))).
Proof.
  intros Hall Hlink.
  assert (PyStr.startswith "/" ("/" +:+ PyStr.join "/"%char comps) = true)
    as Habs by (simpl; by destruct (PyStr.join _ _)).
  pose proof (resolve_container_link_absolute w root_dir link _ Hlink Habs)
    as Hres.
  rewrite parse_absolute in Hres by done. split; [done|].
  intros Hroot. rewrite Hres, parse_absolute by done.
  intros [= Hr Hp]. apply Hroot. destruct root_dir as [r ps]. simpl in *.
  apply (f_equal length) in Hp. rewrite length_app in Hp.
  destruct ps; [|simpl in Hp; lia]. by subst.
Qed.

Lemma absolute_link_is_rerooted_witness :
  resolve_container_link Fixtures.links (Fixtures.P "/srv/img")
    (Fixtures.P "/srv/img/lib/libc.so.6")
  = Ok (Fixtures.P "/srv/img/lib/x86_64-linux-gnu/libc.so.6")
  ∧ resolve_container_link Fixtures.links (Fixtures.P "/srv/img")
      (Fixtures.P "/srv/img/lib/libc.so.6")
    ≠ Ok (Fixtures.P "/lib/x86_64-linux-gnu/libc.so.6").
Proof.
  destruct (absolute_link_is_rerooted Fixtures.links (Fixtures.P "/srv/img")
              (Fixtures.P "/srv/img/lib/libc.so.6")
              ["lib"; "x86_64-linux-gnu"; "libc.so.6"]) as [Hres Hne].
  - repeat constructor; by vm_compute.
  - reflexivity.
  - split; [exact Hres|]. apply Hne. by vm_compute.
Defined.

Lemma collapse_app anchored stack xs ys :
  collapse anchored stack (xs ++ ys)
  = collapse anchored (reverse (collapse anchored stack xs)) ys.
Proof.
  revert stack. induction xs as [|x xs IH]; intros stack; simpl.
  - by rewrite reverse_involutive.
  - destruct (decide (x = "..")); [|apply IH].
    destruct stack as [|top below]; [destruct anchored; apply IH|].
    destruct (decide (top = "..")); apply IH.
Qed.

Lemma collapse_plain anchored stack comps :
  ".." ∉ comps → collapse anchored stack comps = reverse stack ++ comps.
Proof.
  revert stack. induction comps as [|c comps IH]; intros stack Hno; simpl.
  - by rewrite app_nil_r.
  - rewrite decide_False by set_solver.
    rewrite IH by set_solver. by rewrite reverse_cons, <- app_assoc.
Qed.

(** Appending components without [..] to a root stays inside it. *)
Lemma joined_inside root_dir comps :
  ".." ∉ comps →
  lexically_inside root_dir (MkPath (root root_dir) (parts root_dir ++ comps)).
Proof.
  intros Hno. unfold lexically_inside, normalize. simpl. split; [done|].
  rewrite collapse_app, (collapse_plain _ _ comps Hno), reverse_involutive.
  by apply prefix_app_r.
Qed.

Lemma relative_to_Ok self other p :
  PurePath.relative_to self other = Ok p →
  PurePath.abs_parts self = PurePath.abs_parts other ++ parts p.
Proof.
  unfold PurePath.relative_to.
  destruct (PurePath.abs_parts other) as [|o os] eqn:Hother; simpl.
  - case_bool_decide; [done|]. by intros [= <-].
  - case_bool_decide as Htake; [done|]. intros [= <-]. simpl.
    change (o :: os ++ ?l) with ((o :: os) ++ l). rewrite <- Htake.
    symmetry. apply (take_drop (S (length os))).
Qed.

Lemma relative_to_not_prefix self other :
  ¬ PurePath.abs_parts other `prefix_of` PurePath.abs_parts self →
  PurePath.relative_to self other = Raise ValueError.
Proof.
  intros Hnot. unfold PurePath.relative_to.
  destruct (PurePath.abs_parts other) as [|o os] eqn:Hother.
  - destruct Hnot. apply prefix_nil.
  - simpl. case_bool_decide as Htake; [done|]. destruct Hnot.
    exists (drop (S (length os)) (PurePath.abs_parts self)).
    rewrite <- Htake at 1. symmetry. apply (take_drop (S (length os))).
Qed.

(** C7 (as amended): [resolve_container_link] returns no location outside
    the extraction root when the link target is absolute and has no [..]
    segment, or is relative.  For an absolute target the result is the
    extraction root followed by the components of the target; it lies
    lexically inside the root when the target has no [..] component (the
    [..] segments are not normalised, so with them the result may lie
    outside).  For a relative target a path is only returned when the fully
    resolved link lies under the fully resolved root, the result being the
    remainder; when the resolved root is not a prefix of the resolved link,
    [ValueError] is raised. *)
Theorem resolve_container_link_contained w root_dir link target :
  readlink w link = Ok target →
  (PyStr.startswith "/" target = true →
   resolve_container_link w root_dir link
   = Ok (MkPath (root root_dir)
           (parts root_dir ++ parts (PurePath.parse target)))
   ∧ (".." ∉ parts (PurePath.parse target) →
      lexically_inside root_dir
        (MkPath (root root_dir)
           (parts root_dir ++ parts (PurePath.parse target)))))
  ∧ (PyStr.startswith "/" target = false →
     (∀ p, resolve_container_link w root_dir link = Ok p →
           ∃ real real_root,
             resolve w link = Ok real ∧ resolve w root_dir = Ok real_root
             ∧ PurePath.abs_parts real
               = PurePath.abs_parts real_root ++ parts p)
     ∧ (∀ real real_root,
          resolve w link = Ok real → resolve w root_dir = Ok real_root →
          ¬ PurePath.abs_parts real_root `prefix_of` PurePath.abs_parts real →
          resolve_container_link w root_dir link = Raise ValueError)).
Proof.
  intros Hlink. split; intros Habs.
  - split; [by apply resolve_container_link_absolute|apply joined_inside].
  - unfold resolve_container_link. rewrite Hlink. simpl. rewrite Habs. split.
    + intros p Hres.
      destruct (resolve w link) as [real|]; [|done].
      destruct (resolve w root_dir) as [real_root|]; [|done]. simpl in Hres.
      exists real, real_root. eauto using relative_to_Ok.
    + intros real real_root -> -> Hnot. simpl.
      by apply relative_to_not_prefix.
Qed.

Lemma resolve_container_link_contained_witness :
  (resolve_container_link Fixtures.links (Fixtures.P "/srv/img")
     (Fixtures.P "/srv/img/lib/libc.so.6")
   = Ok (Fixtures.P "/srv/img/lib/x86_64-linux-gnu/libc.so.6")
   ∧ lexically_inside (Fixtures.P "/srv/img")
       (Fixtures.P "/srv/img/lib/x86_64-linux-gnu/libc.so.6"))
  ∧ (∃ real real_root,
       resolve Fixtures.links (Fixtures.P "/srv/img/lib/libm.so.6") = Ok real
       ∧ resolve Fixtures.links (Fixtures.P "/srv/img") = Ok real_root
       ∧ PurePath.abs_parts real
         = PurePath.abs_parts real_root ++ ["lib"; "libm-2.31.so"])
  ∧ resolve_container_link Fixtures.links (Fixtures.P "/srv/img")
      (Fixtures.P "/srv/img/lib/libout.so") = Raise ValueError.
Proof.
  split; [|split].
  - assert (readlink Fixtures.links (Fixtures.P "/srv/img/lib/libc.so.6")
            = Ok "/lib/x86_64-linux-gnu/libc.so.6") as Hlink
      by (vm_compute; reflexivity).
    destruct (proj1 (resolve_container_link_contained Fixtures.links
                       (Fixtures.P "/srv/img") _ _ Hlink))
      as [Hres Hinside]; [vm_compute; reflexivity|].
    assert (MkPath (root (Fixtures.P "/srv/img"))
              (parts (Fixtures.P "/srv/img")
               ++ parts (PurePath.parse "/lib/x86_64-linux-gnu/libc.so.6"))
            = Fixtures.P "/srv/img/lib/x86_64-linux-gnu/libc.so.6") as Hpath
      by (vm_compute; reflexivity).
    rewrite Hpath in Hres, Hinside.
    split; [exact Hres|]. apply Hinside.
    apply (bool_decide_unpack _). by vm_compute.
  - assert (readlink Fixtures.links (Fixtures.P "/srv/img/lib/libm.so.6")
            = Ok "libm-2.31.so") as Hlink
      by (vm_compute; reflexivity).
    assert (resolve_container_link Fixtures.links (Fixtures.P "/srv/img")
              (Fixtures.P "/srv/img/lib/libm.so.6")
            = Ok (MkPath "" ["lib"; "libm-2.31.so"])) as Hres
      by (vm_compute; reflexivity).
    destruct (proj2 (resolve_container_link_contained Fixtures.links
                       (Fixtures.P "/srv/img") _ _ Hlink))
      as [Hok _]; [vm_compute; reflexivity|].
    exact (Hok _ Hres).
  - assert (readlink Fixtures.links (Fixtures.P "/srv/img/lib/libout.so")
            = Ok "../../../etc/passwd") as Hlink
      by (vm_compute; reflexivity).
    destruct (proj2 (resolve_container_link_contained Fixtures.links
                       (Fixtures.P "/srv/img") _ _ Hlink))
      as [_ Hraise]; [vm_compute; reflexivity|].
    apply (Hraise (Fixtures.P "/etc/passwd") (Fixtures.P "/srv/img"));
      [vm_compute; reflexivity..|].
    apply (bool_decide_eq_false _). by vm_compute.
Defined.

(** C7 (as stated, refuted): an absolute target with [..] components is
    re-rooted without being normalised.  Under the root [/srv/img] the
    target [/../../etc/passwd] resolves to [/srv/img/../../etc/passwd],
    which denotes the host file [/etc/passwd]; under the relative root
    [main] uses, the result also leaves the root. *)
Lemma resolve_container_link_escapes :
  (∃ p, resolve_container_link Fixtures.links (Fixtures.P "/srv/img")
          (Fixtures.P "/srv/img/lib/libevil.so") = Ok p
        ∧ ¬ lexically_inside (Fixtures.P "/srv/img") p
        ∧ normalize p = normalize (Fixtures.P "/../../etc/passwd")
        ∧ normalize p = Fixtures.P "/etc/passwd")
  ∧ (∃ p, resolve_container_link Fixtures.links Fixtures.out
            (Fixtures.P (Fixtures.out_text +:+ "/lib/libevil.so")) = Ok p
          ∧ ¬ lexically_inside Fixtures.out p).
Proof.
  split; eexists; (split; [vm_compute; reflexivity|]).
  - split; [|by vm_compute].
    apply (bool_decide_eq_false _). by vm_compute.
  - apply (bool_decide_eq_false _). by vm_compute.
Qed.

(** ** The verdict and the cleanup of [main] *)

Lemma finished_with_true {A} (P : A → bool) o :
  finished_with P o = true → ∃ a, o = Finished a ∧ P a = true.
Proof. destruct o as [a| |]; [|done..]. intros HP. by exists a. Qed.

(** What a run of [main] that reaches [sys.exit] went through. *)
Lemma main_Finished w fuel image_ref target_binary clean r :
  main w fuel image_ref target_binary clean = Finished r →
  ∃ target_rel target_arch deps0 st,
    relative_to_root target_binary = Ok target_rel
    ∧ detect_architecture w (output_dir_of image_ref) target_rel = Ok target_arch
    ∧ detect_dependencies w (output_dir_of image_ref) target_rel = Ok deps0
    ∧ closure_walk w (output_dir_of image_ref) target_arch fuel
        (initial_state deps0) = Finished st
    ∧ r = MkReport st (exit_code_of st)
            ([Mkdir (output_dir_of image_ref);
              UntarImage image_ref (output_dir_of image_ref)]
             ++ if clean then [Rmtree (output_dir_of image_ref)] else []).
Proof.
  unfold main, output_dir_of. intros Hmain.
  destruct (relative_to_root target_binary) as [target_rel|]; [|done].
  destruct (detect_architecture w _ target_rel) as [target_arch|] eqn:Harch;
    [|done].
  destruct (detect_dependencies w _ target_rel) as [deps0|] eqn:Hdeps; [|done].
  destruct (closure_walk w _ target_arch fuel _) as [st| |] eqn:Hwalk;
    [|done..].
  exists target_rel, target_arch, deps0, st. rewrite Hwalk.
  destruct clean; [destruct (rmtree w _); [|done]|]; by injection Hmain as <-.
Qed.

(** What [main] does once the walk is over. *)
Lemma main_after_walk w fuel image_ref target_binary clean
    target_rel target_arch deps0 st :
  relative_to_root target_binary = Ok target_rel →
  detect_architecture w (output_dir_of image_ref) target_rel = Ok target_arch →
  detect_dependencies w (output_dir_of image_ref) target_rel = Ok deps0 →
  closure_walk w (output_dir_of image_ref) target_arch fuel
    (initial_state deps0) = Finished st →
  main w fuel image_ref target_binary clean
  = if clean then
      match rmtree w (output_dir_of image_ref) with
      | Raise e => Crashed e
      | Ok _ =>
          Finished (MkReport st (exit_code_of st)
                      [Mkdir (output_dir_of image_ref);
                       UntarImage image_ref (output_dir_of image_ref);
                       Rmtree (output_dir_of image_ref)])
      end
    else
      Finished (MkReport st (exit_code_of st)
                  [Mkdir (output_dir_of image_ref);
                   UntarImage image_ref (output_dir_of image_ref)]).
Proof.
  intros Hrel Harch Hdeps Hwalk. unfold main. fold (output_dir_of image_ref).
  by rewrite Hrel, Harch, Hdeps, Hwalk.
Qed.

(** A run with cleanup reaches [sys.exit] only if [shutil.rmtree] did not
    raise. *)
Lemma main_Finished_cleanup w fuel image_ref target_binary r :
  main w fuel image_ref target_binary true = Finished r →
  rmtree w (output_dir_of image_ref) = Ok ().
Proof.
  intros Hmain.
  destruct (main_Finished _ _ _ _ _ _ Hmain)
    as (rel & arch & deps0 & st & Hrel & Harch & Hdeps & Hwalk & _).
  rewrite (main_after_walk _ _ _ _ _ _ _ _ _ Hrel Harch Hdeps Hwalk) in Hmain.
  by destruct (rmtree w (output_dir_of image_ref)) as [[]|].
Qed.

Lemma exit_code_of_zero st :
  exit_code_of st = 0%Z ↔ missing st = ∅ ∧ wrong_arch st = ∅.
Proof.
  unfold exit_code_of. repeat case_decide; naive_solver.
Qed.

Lemma exit_code_of_one st :
  exit_code_of st = 1%Z ↔ missing st ≠ ∅ ∨ wrong_arch st ≠ ∅.
Proof.
  unfold exit_code_of. repeat case_decide; naive_solver.
Qed.

(** C6 (as amended): in a run that completes the walk and whose cleanup
    does not raise (the caller opted out, or [shutil.rmtree] succeeded),
    the process exits with code 0 exactly when the final [missing] and the
    final [wrong_arch] are both empty, and with code 1 exactly when one of
    them is not.  When the cleanup raises, the run ends with that exception
    and the status 1, whatever the two collections hold. *)
Theorem exit_code_iff_no_failure w fuel image_ref target_binary clean
    target_rel target_arch deps0 st :
  let output_dir := output_dir_of image_ref in
  relative_to_root target_binary = Ok target_rel →
  detect_architecture w output_dir target_rel = Ok target_arch →
  detect_dependencies w output_dir target_rel = Ok deps0 →
  closure_walk w output_dir target_arch fuel (initial_state deps0)
  = Finished st →
  (clean = false ∨ rmtree w output_dir = Ok () →
   ∃ r, main w fuel image_ref target_binary clean = Finished r
        ∧ closure r = st
        ∧ (exit_status (main w fuel image_ref target_binary clean) = Some 0%Z
           ↔ missing st = ∅ ∧ wrong_arch st = ∅)
        ∧ (exit_status (main w fuel image_ref target_binary clean) = Some 1%Z
           ↔ missing st ≠ ∅ ∨ wrong_arch st ≠ ∅))
  ∧ (∀ e, clean = true → rmtree w output_dir = Raise e →
          main w fuel image_ref target_binary clean = Crashed e
          ∧ exit_status (main w fuel image_ref target_binary clean)
            = Some 1%Z).
Proof.
  intros output_dir Hrel Harch Hdeps Hwalk.
  rewrite (main_after_walk _ _ _ _ clean _ _ _ _ Hrel Harch Hdeps Hwalk).
  fold output_dir. split.
  - intros Hclean.
    assert (∃ effects,
              (if clean then
                 match rmtree w output_dir with
                 | Raise e => Crashed e
                 | Ok _ =>
                     Finished (MkReport st (exit_code_of st)
                                 [Mkdir output_dir;
                                  UntarImage image_ref output_dir;
                                  Rmtree output_dir])
                 end
               else
                 Finished (MkReport st (exit_code_of st)
                             [Mkdir output_dir;
                              UntarImage image_ref output_dir]))
              = Finished (MkReport st (exit_code_of st) effects))
      as [effects ->].
    { destruct clean; [|by eexists].
      destruct Hclean as [Hc|Hc]; [done|]. rewrite Hc. by eexists. }
    eexists. split; [done|]. simpl. split; [done|].
    rewrite <- exit_code_of_zero, <- exit_code_of_one.
    split; (split; [by intros [= ->]|by intros ->]).
  - intros e -> ->. done.
Qed.

Lemma exit_code_iff_no_failure_witness :
  ∃ st,
    closure_walk Fixtures.scenario_A Fixtures.out "x86-64" 1
      (initial_state ["libc.so.6"]) = Finished st
    ∧ ∃ r, main Fixtures.scenario_A 1 Fixtures.image_ref Fixtures.target true
           = Finished r
           ∧ closure r = st
           ∧ (exit_status
                (main Fixtures.scenario_A 1 Fixtures.image_ref Fixtures.target
                   true) = Some 0%Z
              ↔ missing st = ∅ ∧ wrong_arch st = ∅)
           ∧ (exit_status
                (main Fixtures.scenario_A 1 Fixtures.image_ref Fixtures.target
                   true) = Some 1%Z
              ↔ missing st ≠ ∅ ∨ wrong_arch st ≠ ∅).
Proof.
  destruct (finished_with_true (λ _, true)
              (closure_walk Fixtures.scenario_A Fixtures.out "x86-64" 1
                 (initial_state ["libc.so.6"])))
    as (st & Hwalk & _); [vm_compute; reflexivity|].
  exists st. split; [exact Hwalk|].
  apply (exit_code_iff_no_failure Fixtures.scenario_A 1 Fixtures.image_ref
           Fixtures.target true (Fixtures.P "usr/sbin/dnsmasq") "x86-64"
           ["libc.so.6"] st).
  - vm_compute. reflexivity.
  - vm_compute. reflexivity.
  - vm_compute. reflexivity.
  - exact Hwalk.
  - right. vm_compute. reflexivity.
Defined.

(** C6 (as stated, refuted): Scenario A with an extraction directory that
    cannot be removed.  The walk completes with [missing] and [wrong_arch]
    empty, and the run ends with the exception of [shutil.rmtree], status
    1, not with code 0. *)
Lemma cleanup_failure_exits_with_1 :
  ∃ st,
    closure_walk (failing_cleanup Fixtures.scenario_A) Fixtures.out "x86-64" 1
      (initial_state ["libc.so.6"]) = Finished st
    ∧ missing st = ∅ ∧ wrong_arch st = ∅
    ∧ detect_architecture (failing_cleanup Fixtures.scenario_A) Fixtures.out
        (Fixtures.P "usr/sbin/dnsmasq") = Ok "x86-64"
    ∧ detect_dependencies (failing_cleanup Fixtures.scenario_A) Fixtures.out
        (Fixtures.P "usr/sbin/dnsmasq") = Ok ["libc.so.6"]
    ∧ main (failing_cleanup Fixtures.scenario_A) 1 Fixtures.image_ref
        Fixtures.target true = Crashed OSError
    ∧ exit_status
        (main (failing_cleanup Fixtures.scenario_A) 1 Fixtures.image_ref
           Fixtures.target true) = Some 1%Z.
Proof.
  destruct (finished_with_true
              (λ st, bool_decide (missing st = ∅ ∧ wrong_arch st = ∅))
              (closure_walk (failing_cleanup Fixtures.scenario_A) Fixtures.out
                 "x86-64" 1 (initial_state ["libc.so.6"])))
    as (st & Hwalk & [Hmissing Hwrong]%bool_decide_eq_true);
    [vm_compute; reflexivity|].
  exists st. split_and!; try done; vm_compute; reflexivity.
Qed.




(** ** The closure walk *)

Lemma pop_nil {A} : pop (@nil A) = None.
Proof. reflexivity. Qed.

Lemma pop_snoc {A} (l : list A) x : pop (l ++ [x]) = Some (x, l).
Proof. unfold pop. by rewrite reverse_snoc, reverse_involutive. Qed.

Lemma pop_Some {A} (l rest : list A) x :
  pop l = Some (x, rest) → l = rest ++ [x].
Proof.
  unfold pop. destruct (reverse l) as [|y r] eqn:Hrev; [done|].
  intros [= -> <-]. by rewrite <- (reverse_involutive l), Hrev, reverse_cons.
Qed.

Lemma pop_None {A} (l : list A) : pop l = None → l = [].
Proof.
  unfold pop. destruct (reverse l) eqn:Hrev; [|done].
  intros _. by rewrite <- (reverse_involutive l), Hrev.
Qed.

Lemma visit_dep_path_unfold w output_dir target_binary_arch st dep_path :
  visit_dep_path w output_dir target_binary_arch st dep_path
  = (dep_path ← real_dep_path w output_dir dep_path;
     dep_arch ← detect_architecture w output_dir dep_path;
     if decide (dep_arch ≠ target_binary_arch) then
       Ok (set_wrong_arch dep_path dep_arch st)
     else
       current_dependencies ← detect_dependencies w output_dir dep_path;
       Ok (extend_deps current_dependencies st)).
Proof. reflexivity. Qed.

Lemma visit_unfold w output_dir target_binary_arch current st :
  visit w output_dir target_binary_arch current st
  = if decide (current ∈ seen st) then Ok st
    else
      dep_paths ← find_dependencies_with_name w output_dir current;
      match dep_paths with
      | [] => Ok (add_missing current (add_seen current st))
      | _ => for_dep_paths w output_dir target_binary_arch dep_paths
               (add_seen current st)
      end.
Proof. reflexivity. Qed.

Section WalkFacts.
Variable w : World.
Variable output_dir : Path.
Variable target_binary_arch : string.

Local Abbreviation found := (find_dependencies_with_name w output_dir).
Local Abbreviation real_of := (real_dep_path w output_dir).
Local Abbreviation arch_of := (detect_architecture w output_dir).
Local Abbreviation needed_of := (detect_dependencies w output_dir).
Local Abbreviation visit_dep_path := (visit_dep_path w output_dir target_binary_arch).
Local Abbreviation for_dep_paths := (for_dep_paths w output_dir target_binary_arch).
Local Abbreviation visit := (visit w output_dir target_binary_arch).
Local Abbreviation closure_walk := (closure_walk w output_dir target_binary_arch).
Local Abbreviation fifo_walk := (fifo_walk w output_dir target_binary_arch).
Local Abbreviation walk_step := (walk_step w output_dir target_binary_arch).
Local Abbreviation any_step := (any_step w output_dir target_binary_arch).
Local Abbreviation Reach := (Reach w output_dir target_binary_arch).
Local Abbreviation scanned := (scanned w output_dir target_binary_arch).
Local Abbreviation walk_inv := (walk_inv w output_dir target_binary_arch).

(** One turn of the [for] loop either records a mismatch or extends the
    work list, and nothing else. *)
Lemma visit_dep_path_Ok st dep_path st' :
  visit_dep_path st dep_path = Ok st' →
  ∃ real arch,
    real_of dep_path = Ok real ∧ arch_of real = Ok arch
    ∧ ((arch ≠ target_binary_arch ∧ st' = set_wrong_arch real arch st)
       ∨ (arch = target_binary_arch
          ∧ ∃ needed, needed_of real = Ok needed
                      ∧ st' = extend_deps needed st)).
Proof.
  rewrite visit_dep_path_unfold.
  destruct (real_of dep_path) as [real|]; [|done]. simpl.
  destruct (arch_of real) as [arch|] eqn:Hreal; [|done]. simpl.
  case_decide as Harch.
  - intros [= <-]. exists real, arch. split_and!; [done..|]. by left.
  - destruct (needed_of real) as [needed|] eqn:Hneeded; [|done]. simpl.
    intros [= <-]. exists real, arch. eauto 10.
Qed.

Lemma scanned_nil st : scanned [] st st.
Proof.
  split; auto.
  - exists []. rewrite app_nil_r. split; [done|]. by intros m ?%elem_of_nil.
  - by intros q ?%elem_of_nil.
Qed.

Lemma for_dep_paths_Ok dep_paths st st' :
  for_dep_paths dep_paths st = Ok st' → scanned dep_paths st st'.
Proof.
  revert st. induction dep_paths as [|q qs IH]; intros st; simpl.
  { intros [= <-]. apply scanned_nil. }
  destruct (visit_dep_path st q) as [st1|] eqn:Hq; [|done]. simpl.
  intros Hrest. apply IH in Hrest as [Hs Hm (new & Hd & Hnew) He Hwn Hwo].
  apply visit_dep_path_Ok in Hq
    as (real & arch & Hreal & Harch & [[Hne ->] | [-> (needed & Hneeded & ->)]]).
  - (* a mismatch was recorded for [q] *)
    simpl in *. split; try done.
    + exists new. split; [done|]. intros m Hin.
      destruct (Hnew m Hin) as (q' & r' & n' & ? & ?).
      exists q', r', n'. set_solver.
    + intros q' [->|Hin]%elem_of_cons; [|by apply He].
      exists real, arch. repeat split; [done..| |done].
      intros _. apply Hwo; [|done]. apply lookup_insert_eq.
    + intros r a Hra. destruct (Hwn r a Hra) as [Hold | (? & ? & q' & ? & ?)].
      * destruct (decide (real = r)) as [<-|Hr].
        -- rewrite lookup_insert_eq in Hold. injection Hold as <-.
           right. repeat split; [done..|]. exists q. set_solver.
        -- rewrite lookup_insert_ne in Hold by done. by left.
      * right. repeat split; [done..|]. exists q'. set_solver.
    + intros r a Hra Ha. apply Hwo; [|done].
      destruct (decide (real = r)) as [<-|Hr].
      * rewrite lookup_insert_eq. congruence.
      * by rewrite lookup_insert_ne.
  - (* the NEEDED entries of [q] were queued *)
    simpl in *. split; try done.
    + exists (needed ++ new). split; [by rewrite Hd, app_assoc|].
      intros m [Hin|Hin]%elem_of_app.
      * exists q, real, needed. set_solver.
      * destruct (Hnew m Hin) as (q' & r' & n' & ? & ?).
        exists q', r', n'. set_solver.
    + intros q' [->|Hin]%elem_of_cons; [|by apply He].
      exists real, target_binary_arch. repeat split; [done..|].
      intros _. exists needed. split; [done|]. intros m Hin.
      rewrite Hd. set_solver.
    + intros r a Hra. destruct (Hwn r a Hra) as [Hold | (? & ? & q' & ? & ?)].
      * by left.
      * right. repeat split; [done..|]. exists q'. set_solver.
Qed.

Lemma visit_seen current st : current ∈ seen st → visit current st = Ok st.
Proof. intros Hin. rewrite visit_unfold. by rewrite decide_True. Qed.

(** The body of the [while] loop on a name that was not seen before. *)
Lemma visit_new current st st' :
  current ∉ seen st →
  visit current st = Ok st' →
  ∃ dep_paths st1,
    found current = Ok dep_paths
    ∧ scanned dep_paths (add_seen current st) st1
    ∧ ((dep_paths = [] ∧ st' = add_missing current st1)
       ∨ (dep_paths ≠ [] ∧ st' = st1)).
Proof.
  intros Hnew. rewrite visit_unfold. rewrite decide_False by done.
  destruct (found current) as [dep_paths|]; [|done]. simpl.
  destruct dep_paths as [|q qs].
  - intros [= <-]. exists [], (add_seen current st).
    split; [done|]. split; [apply scanned_nil|]. by left.
  - intros Hfor. exists (q :: qs), st'.
    split; [done|]. split; [by apply for_dep_paths_Ok|]. by right.
Qed.

Lemma walk_inv_initial deps0 : walk_inv deps0 (initial_state deps0).
Proof.
  split; simpl.
  - auto.
  - intros n ?%not_elem_of_empty. done.
  - intros n Hin. by apply Reach_start.
  - intros n. split; [by intros ?%not_elem_of_empty|].
    by intros [?%not_elem_of_empty _].
  - intros n ?%not_elem_of_empty. done.
  - intros real arch. by rewrite lookup_empty.
Qed.

(** The invariant survives one turn, whichever name is taken. *)
Lemma walk_inv_step deps0 st st' :
  walk_inv deps0 st → any_step st st' → walk_inv deps0 st'.
Proof.
  intros [Hstart Hrs Hrd Hmiss Hvis Hwrong]
    (current & rest & st1 & Hperm & Hvisit & Hd' & Hs' & Hm' & Hw').
  assert (∀ n, n ∈ deps st ↔ n = current ∨ n ∈ rest) as Hdeps.
  { intros n. rewrite Hperm. apply elem_of_cons. }
  assert (∀ n, n ∈ deps st' ↔ n ∈ deps st1) as Hdeps'.
  { intros n. by rewrite Hd'. }
  destruct (decide (current ∈ seen st)) as [Hseen|Hnew].
  { (* the name was seen before: only the work list shrinks *)
    rewrite visit_seen in Hvisit by done. injection Hvisit as <-.
    simpl in *.
    split; rewrite ?Hs', ?Hm', ?Hw'; try setoid_rewrite Hdeps'; simpl; auto.
    - intros n Hn. destruct (Hstart n Hn) as [|[->|]%Hdeps]; auto.
    - intros n Hn. apply Hrd, Hdeps. auto.
    - intros n Hn. destruct (Hvis n Hn) as (ps & Hps & Hall).
      exists ps. split; [done|]. intros q Hq.
      destruct (Hall q Hq) as (real & arch & ? & ? & ? & Hsame).
      exists real, arch. split_and!; [done..|].
      intros Heq. destruct (Hsame Heq) as (needed & ? & Hq').
      exists needed. split; [done|]. intros m Hin.
      destruct (Hq' m Hin) as [|[->|]%Hdeps]; auto. }
  (* a new name: it is classified and maybe expanded *)
  apply visit_new in Hvisit as (ps & st2 & Hps & Hscan & Hcase); [|done].
  destruct Hscan as [Hs2 Hm2 (new & Hd2 & Hnew2) He2 Hwn2 Hwo2].
  simpl in *.
  assert (seen st' = seen st ∪ {[current]}) as Hseen'.
  { rewrite Hs'. by destruct Hcase as [[_ ->]|[_ ->]]; simpl; rewrite Hs2. }
  assert (wrong_arch st' = wrong_arch st2) as Hwrong'.
  { rewrite Hw'. by destruct Hcase as [[_ ->]|[_ ->]]. }
  assert (∀ n, n ∈ deps st' ↔ n ∈ rest ∨ n ∈ new) as Hdeps2.
  { intros n. rewrite Hdeps'.
    destruct Hcase as [[_ ->]|[_ ->]]; simpl; rewrite Hd2; apply elem_of_app. }
  assert (Reach deps0 current) as Hcur by (apply Hrd, Hdeps; auto).
  split; rewrite ?Hseen', ?Hwrong'.
  - intros n Hn. rewrite Hdeps2.
    destruct (Hstart n Hn) as [|[->|]%Hdeps]; set_solver.
  - intros n [Hn| ->%elem_of_singleton]%elem_of_union; auto.
  - intros n [Hn|Hn]%Hdeps2; [apply Hrd, Hdeps; auto|].
    destruct (Hnew2 n Hn) as (q & real & needed & ? & ? & ? & ? & ?).
    by eapply Reach_needed.
  - intros n. rewrite Hm'.
    destruct Hcase as [[-> ->]|[Hne ->]]; simpl; rewrite Hm2; simpl.
    + rewrite !elem_of_union, !elem_of_singleton, Hmiss. naive_solver.
    + rewrite !elem_of_union, !elem_of_singleton, Hmiss.
      split; [naive_solver|]. intros [[?| ->] Hnone]; [done|].
      rewrite Hps in Hnone. by injection Hnone as ->.
  - intros n [Hn| ->%elem_of_singleton]%elem_of_union.
    + destruct (Hvis n Hn) as (ps' & Hps' & Hall).
      exists ps'. split; [done|]. intros q Hq.
      destruct (Hall q Hq) as (real & arch & ? & ? & Hdiff & Hsame).
      exists real, arch. split_and!; [done..| |].
      * intros Hne. by apply Hwo2; [apply Hdiff|].
      * intros Heq. destruct (Hsame Heq) as (needed & ? & Hq').
        exists needed. split; [done|]. intros m Hin. rewrite Hdeps2.
        destruct (Hq' m Hin) as [|[->|]%Hdeps]; set_solver.
    + exists ps. split; [done|]. intros q Hq.
      destruct (He2 q Hq) as (real & arch & ? & ? & Hdiff & Hsame).
      exists real, arch. split_and!; [done..|].
      intros Heq. destruct (Hsame Heq) as (needed & ? & Hq').
      exists needed. split; [done|]. intros m Hin. right.
      apply Hdeps2. specialize (Hq' m Hin). rewrite Hd2 in Hq'.
      by apply elem_of_app in Hq'.
  - intros real arch Hra.
    destruct (Hwn2 real arch Hra) as [Hold | (? & ? & q & ? & ?)].
    + destruct (Hwrong real arch Hold) as (? & ? & n & ps' & q & ? & ?).
      split_and!; [done..|]. exists n, ps', q. set_solver.
    + split_and!; [done..|]. exists current, ps, q. set_solver.
Qed.

Lemma walk_inv_run deps0 st st' :
  walk_inv deps0 st → rtc any_step st st' → walk_inv deps0 st'.
Proof. induction 2; eauto using walk_inv_step. Qed.

(** The loop of the script is one of the disciplines. *)
Lemma walk_step_any st st' : walk_step st st' → any_step st st'.
Proof.
  intros (current & rest & Hpop%pop_Some & Hvisit).
  exists current, rest, st'. split_and!; [|done..].
  rewrite Hpop. symmetry. apply Permutation_cons_append.
Qed.

Lemma walk_steps_any st st' : rtc walk_step st st' → rtc any_step st st'.
Proof. apply rtc_subrel. intros ??. apply walk_step_any. Qed.

Lemma closure_walk_unfold fuel st :
  closure_walk fuel st
  = match pop (deps st) with
    | None => Finished st
    | Some (current, rest) =>
        match fuel with
        | 0 => OutOfFuel
        | S fuel =>
            match visit current (set_deps rest st) with
            | Raise e => Crashed e
            | Ok st => closure_walk fuel st
            end
        end
    end.
Proof. by destruct fuel. Qed.

(** A finished run of the loop is a sequence of its turns that ends with
    an empty work list. *)
Lemma closure_walk_Finished fuel st st' :
  closure_walk fuel st = Finished st' →
  rtc walk_step st st' ∧ deps st' = [].
Proof.
  revert st. induction fuel as [|fuel IH]; intros st;
    rewrite closure_walk_unfold;
    destruct (pop (deps st)) as [[current rest]|] eqn:Hpop;
    try done; try (intros [= <-]; split; [done|by apply pop_None]).
  destruct (visit current (set_deps rest st)) as [st1|] eqn:Hvisit; [|done].
  intros [Hrun Hend]%IH. split; [|done].
  eapply rtc_l; [|done]. by exists current, rest.
Qed.

Lemma fifo_walk_Finished fuel st st' :
  fifo_walk fuel st = Finished st' →
  rtc any_step st st' ∧ deps st' = [].
Proof.
  revert st. induction fuel as [|fuel IH]; intros st; simpl;
    destruct (deps st) as [|current rest] eqn:Hdeps;
    try done; try (intros [= <-]; by split).
  destruct (visit current (set_deps rest st)) as [st1|] eqn:Hvisit; [|done].
  intros [Hrun Hend]%IH. split; [|done].
  eapply rtc_l; [|done]. exists current, rest, st1. by rewrite Hdeps.
Qed.

(** With an empty work list, everything reachable has been seen. *)
Lemma walk_inv_closed deps0 st n :
  walk_inv deps0 st → deps st = [] → Reach deps0 n → n ∈ seen st.
Proof.
  intros [Hstart _ _ _ Hvis _] Hend. induction 1 as
    [n Hn | n ps q real needed m _ IH Hps Hq Hreal Harch Hneeded Hm].
  - destruct (Hstart n Hn) as [|Hin]; [done|].
    rewrite Hend in Hin. by apply elem_of_nil in Hin.
  - destruct (Hvis n IH) as (ps' & Hps' & Hall).
    assert (ps' = ps) as -> by congruence.
    destruct (Hall q Hq) as (real' & arch & Hreal' & Harch' & _ & Hsame).
    assert (real' = real) as -> by congruence.
    assert (arch = target_binary_arch) as -> by congruence.
    destruct (Hsame eq_refl) as (needed' & Hneeded' & Hq').
    assert (needed' = needed) as -> by congruence.
    destruct (Hq' m Hm) as [|Hin]; [done|].
    rewrite Hend in Hin. by apply elem_of_nil in Hin.
Qed.

(** The invariant and an empty work list determine the three results. *)
Lemma walk_inv_final_unique deps0 st1 st2 :
  walk_inv deps0 st1 → deps st1 = [] →
  walk_inv deps0 st2 → deps st2 = [] →
  seen st1 = seen st2 ∧ missing st1 = missing st2
  ∧ wrong_arch st1 = wrong_arch st2.
Proof.
  intros Hinv1 Hend1 Hinv2 Hend2.
  assert (seen st1 = seen st2) as Hseen.
  { apply set_eq. intros n. split; intros Hn.
    - apply (walk_inv_closed deps0 st2); [done..|].
      by apply (inv_reach_seen _ _ _ _ _ Hinv1).
    - apply (walk_inv_closed deps0 st1); [done..|].
      by apply (inv_reach_seen _ _ _ _ _ Hinv2). }
  split; [done|]. split.
  - apply set_eq. intros n.
    by rewrite (inv_missing _ _ _ _ _ Hinv1), (inv_missing _ _ _ _ _ Hinv2),
      Hseen.
  - assert (∀ sa sb, walk_inv deps0 sa → walk_inv deps0 sb →
              seen sa = seen sb →
              ∀ real arch, wrong_arch sa !! real = Some arch →
                           wrong_arch sb !! real = Some arch) as Hsub.
    { intros sa sb Ha Hb Hab real arch Hra.
      destruct (inv_wrong _ _ _ _ _ Ha real arch Hra)
        as (Hne & Harch & n & ps & q & Hn & Hps & Hq & Hreal).
      rewrite Hab in Hn.
      destruct (inv_visited _ _ _ _ _ Hb n Hn) as (ps' & Hps' & Hall).
      assert (ps' = ps) as -> by congruence.
      destruct (Hall q Hq) as (real' & arch' & Hreal' & Harch' & Hdiff & _).
      assert (real' = real) as -> by congruence.
      assert (arch' = arch) as -> by congruence. by apply Hdiff. }
    apply map_eq. intros real.
    destruct (wrong_arch st1 !! real) as [a1|] eqn:H1.
    + symmetry. by apply (Hsub st1 st2 Hinv1 Hinv2 Hseen).
    + destruct (wrong_arch st2 !! real) as [a2|] eqn:H2; [|done].
      rewrite (Hsub st2 st1 Hinv2 Hinv1 (eq_sym Hseen) real a2 H2) in H1.
      done.
Qed.

End WalkFacts.

(** ** Termination of the walk *)

Section Termination.
Variable w : World.
Variable output_dir : Path.
Variable target_binary_arch : string.
Variable deps0 : list string.
Variable files : list Path.

(** The extraction root holds finitely many files: every search result
    is drawn from [files]. *)
Hypothesis glob_finite :
  ∀ n dep_paths,
    find_dependencies_with_name w output_dir n = Ok dep_paths →
    dep_paths ⊆ files.

Local Abbreviation names := (name_space w output_dir deps0 files).
Local Abbreviation closure_walk :=
  (closure_walk w output_dir target_binary_arch).
Local Abbreviation visit := (visit w output_dir target_binary_arch).

Lemma visit_stays_in_names current st st' :
  (∀ n, n ∈ deps st → n ∈ names) →
  visit current st = Ok st' →
  ∀ n, n ∈ deps st' → n ∈ names.
Proof.
  intros Hin Hvisit.
  destruct (decide (current ∈ seen st)) as [Hseen|Hnew].
  { rewrite visit_seen in Hvisit by done. by injection Hvisit as <-. }
  apply visit_new in Hvisit as (ps & st1 & Hps & Hscan & Hcase); [|done].
  destruct Hscan as [_ _ (new & Hd & Hnew') _ _ _].
  assert (deps st' = deps st ++ new) as ->.
  { by destruct Hcase as [[_ ->]|[_ ->]]. }
  intros n [Hn|Hn]%elem_of_app; [by apply Hin|].
  destruct (Hnew' n Hn) as (q & real & needed & Hq & Hreal & _ & Hneeded & Hm).
  unfold name_space. apply elem_of_app. right.
  apply list_elem_of_bind. exists q. split; [|by eapply glob_finite].
  unfold needed_by. by rewrite Hreal, Hneeded.
Qed.

Lemma visit_new_seen current st st' :
  current ∉ seen st → visit current st = Ok st' →
  seen st' = seen st ∪ {[current]}.
Proof.
  intros Hnew (ps & st1 & _ & [Hs _ _ _ _ _] & Hcase)%visit_new; [|done].
  by destruct Hcase as [[_ ->]|[_ ->]]; simpl; rewrite Hs.
Qed.

(** The measure: the names of the name space not seen yet, then the
    length of the work list. *)
Lemma closure_walk_fuel k :
  ∀ st,
    size (list_to_set names ∖ seen st : gset string) < k →
    (∀ n, n ∈ deps st → n ∈ names) →
    ∃ fuel, closure_walk fuel st ≠ OutOfFuel.
Proof.
  induction k as [|k IHk]; intros st Hsize Hin; [lia|].
  destruct st as [d s m wa]. simpl in *.
  induction d as [|current rest IHrest] using rev_ind.
  { by exists 0. }
  destruct (decide (current ∈ s)) as [Hseen|Hnew].
  - (* skipped: the work list is shorter *)
    destruct IHrest as [fuel Hfuel].
    { intros n Hn. apply Hin. set_solver. }
    exists (S fuel). rewrite closure_walk_unfold. simpl.
    rewrite pop_snoc. by rewrite visit_seen.
  - (* visited: one more name of the name space is seen *)
    destruct (visit current (set_deps rest (MkState (rest ++ [current]) s m wa)))
      as [st'|e] eqn:Hvisit.
    + destruct (IHk st') as [fuel Hfuel].
      * rewrite (visit_new_seen current
                   (set_deps rest (MkState (rest ++ [current]) s m wa))
                   st' Hnew Hvisit). simpl.
        eapply Nat.lt_le_trans; [|apply Nat.lt_succ_r, Hsize].
        apply subset_size. split; [set_solver|].
        intros Hsub. specialize (Hsub current).
        assert (current ∈ names) by (apply Hin; set_solver).
        set_solver.
      * eapply visit_stays_in_names; [|done]. simpl.
        intros n Hn. apply Hin. set_solver.
      * exists (S fuel). rewrite closure_walk_unfold. simpl.
        by rewrite pop_snoc, Hvisit.
    + exists 1. rewrite closure_walk_unfold. simpl.
      by rewrite pop_snoc, Hvisit.
Qed.

Lemma closure_walk_enough_fuel :
  ∃ fuel, closure_walk fuel (initial_state deps0) ≠ OutOfFuel.
Proof.
  apply (closure_walk_fuel (S (size (list_to_set names ∖ ∅ : gset string)))).
  - simpl. lia.
  - simpl. intros n Hn. unfold name_space. set_solver.
Qed.

End Termination.

(** Fuel beyond what a run needs does not change its result. *)
Lemma closure_walk_more_fuel w output_dir target_binary_arch fuel fuel' st :
  closure_walk w output_dir target_binary_arch fuel st ≠ OutOfFuel →
  fuel ≤ fuel' →
  closure_walk w output_dir target_binary_arch fuel' st
  = closure_walk w output_dir target_binary_arch fuel st.
Proof.
  revert fuel' st. induction fuel as [|fuel IH]; intros fuel' st;
    rewrite !(closure_walk_unfold _ _ _ _ st);
    destruct (pop (deps st)) as [[current rest]|]; try done.
  intros Hrun Hle. destruct fuel' as [|fuel']; [lia|].
  destruct (visit w output_dir target_binary_arch current (set_deps rest st));
    [|done].
  apply IH; [done|lia].
Qed.

(** C9: when the extraction root holds finitely many files (every search
    result is drawn from the list [files]), the loop of the closure walk
    ends: some amount of fuel lets it finish or stop on an exception, from
    every work list [deps0], and more fuel gives the same result.  The
    NEEDED entries of a file are a list, hence finitely many. *)
Theorem closure_walk_terminates w output_dir target_binary_arch deps0 files :
  (∀ n dep_paths,
     find_dependencies_with_name w output_dir n = Ok dep_paths →
     dep_paths ⊆ files) →
  ∃ fuel,
    closure_walk w output_dir target_binary_arch fuel (initial_state deps0)
    ≠ OutOfFuel
    ∧ ∀ fuel', fuel ≤ fuel' →
        closure_walk w output_dir target_binary_arch fuel' (initial_state deps0)
        = closure_walk w output_dir target_binary_arch fuel
            (initial_state deps0).
Proof.
  intros Hfinite.
  destruct (closure_walk_enough_fuel w output_dir target_binary_arch deps0
              files Hfinite) as [fuel Hfuel].
  exists fuel. split; [done|]. intros fuel'.
  by apply closure_walk_more_fuel.
Qed.

(** Every glob of the image [Fixtures.mixed] draws from its four links. *)
Lemma mixed_glob_finite n dep_paths :
  find_dependencies_with_name Fixtures.mixed Fixtures.out n = Ok dep_paths →
  dep_paths ⊆ Fixtures.mixed_files.
Proof.
  unfold find_dependencies_with_name. simpl.
  repeat (case_decide; simpl); intros [= <-];
    apply (bool_decide_unpack _); by vm_compute.
Qed.

Lemma closure_walk_terminates_witness :
  ∃ fuel,
    closure_walk Fixtures.mixed Fixtures.out "x86-64" fuel
      (initial_state ["libc.so.6"; "libfoo.so"; "libbar.so"])
    ≠ OutOfFuel
    ∧ ∀ fuel', fuel ≤ fuel' →
        closure_walk Fixtures.mixed Fixtures.out "x86-64" fuel'
          (initial_state ["libc.so.6"; "libfoo.so"; "libbar.so"])
        = closure_walk Fixtures.mixed Fixtures.out "x86-64" fuel
            (initial_state ["libc.so.6"; "libfoo.so"; "libbar.so"]).
Proof.
  exact (closure_walk_terminates Fixtures.mixed Fixtures.out "x86-64"
           ["libc.so.6"; "libfoo.so"; "libbar.so"] Fixtures.mixed_files
           mixed_glob_finite).
Defined.

(** ** The results of the walk *)

Section Results.
Variable w : World.
Variable output_dir : Path.
Variable target_binary_arch : string.

Local Abbreviation found := (find_dependencies_with_name w output_dir).
Local Abbreviation real_of := (real_dep_path w output_dir).
Local Abbreviation arch_of := (detect_architecture w output_dir).
Local Abbreviation needed_of := (detect_dependencies w output_dir).
Local Abbreviation visit_dep_path :=
  (visit_dep_path w output_dir target_binary_arch).
Local Abbreviation for_dep_paths :=
  (for_dep_paths w output_dir target_binary_arch).
Local Abbreviation visit := (visit w output_dir target_binary_arch).
Local Abbreviation closure_walk :=
  (closure_walk w output_dir target_binary_arch).
Local Abbreviation walk_step := (walk_step w output_dir target_binary_arch).
Local Abbreviation any_step := (any_step w output_dir target_binary_arch).
Local Abbreviation Reach := (Reach w output_dir target_binary_arch).
Local Abbreviation walk_inv := (walk_inv w output_dir target_binary_arch).

Lemma walk_inv_reached deps0 st :
  rtc walk_step (initial_state deps0) st → walk_inv deps0 st.
Proof.
  intros Hrun%walk_steps_any.
  eapply walk_inv_run; [apply walk_inv_initial|done].
Qed.

Lemma walk_inv_Finished deps0 fuel st :
  closure_walk fuel (initial_state deps0) = Finished st →
  walk_inv deps0 st ∧ deps st = [].
Proof.
  intros [Hrun Hend]%closure_walk_Finished. split; [|done].
  by apply walk_inv_reached.
Qed.

(** C2 (as amended): after every turn of the loop, and so at its end,
    every name recorded in [missing] is also in [seen] (the two are not
    disjoint once a name is missing), and [wrong_arch] is keyed by paths,
    not by names: each key is the resolved path of a file found for a
    name in [seen]. *)
Theorem missing_within_seen deps0 st :
  rtc walk_step (initial_state deps0) st →
  missing st ⊆ seen st
  ∧ ∀ real arch, wrong_arch st !! real = Some arch →
      ∃ n dep_paths dep_path,
        n ∈ seen st ∧ found n = Ok dep_paths ∧ dep_path ∈ dep_paths
        ∧ real_of dep_path = Ok real.
Proof.
  intros [_ _ _ Hmiss _ Hwrong]%walk_inv_reached. split.
  - intros n Hn. by apply Hmiss in Hn as [? _].
  - intros real arch Hra. by destruct (Hwrong real arch Hra) as (_ & _ & ?).
Qed.

(** C5: missing and mismatched dependencies are terminal.  In a finished
    walk the names in [seen] are exactly the names reached from the first
    work list through files that were found with the architecture of the
    target, so nothing is reached through a missing name or a mismatched
    file; every reached name without a file is in [missing]; every file
    found for a reached name with another architecture is in [wrong_arch]
    under its resolved path.  Turn by turn: visiting a name with no file
    adds it to [seen] and [missing] and leaves the work list as it is, and
    a mismatched file only sets its entry of [wrong_arch], its NEEDED
    entries are not read. *)
Theorem missing_and_mismatched_are_terminal deps0 fuel st :
  closure_walk fuel (initial_state deps0) = Finished st →
  (∀ n, n ∈ seen st ↔ Reach deps0 n)
  ∧ (∀ n, Reach deps0 n → found n = Ok [] → n ∈ missing st)
  ∧ (∀ n dep_paths dep_path real arch,
       Reach deps0 n → found n = Ok dep_paths → dep_path ∈ dep_paths →
       real_of dep_path = Ok real → arch_of real = Ok arch →
       arch ≠ target_binary_arch →
       wrong_arch st !! real = Some arch)
  ∧ (∀ s current,
       current ∉ seen s → found current = Ok [] →
       visit current s = Ok (add_missing current (add_seen current s)))
  ∧ (∀ s dep_path real arch,
       real_of dep_path = Ok real → arch_of real = Ok arch →
       arch ≠ target_binary_arch →
       visit_dep_path s dep_path = Ok (set_wrong_arch real arch s)).
Proof.
  intros [Hinv Hend]%walk_inv_Finished.
  assert (∀ n, Reach deps0 n → n ∈ seen st) as Hclosed
    by (intros n; by apply walk_inv_closed).
  destruct Hinv as [_ Hrs _ Hmiss Hvis _]. split_and!.
  - intros n. split; [apply Hrs|apply Hclosed].
  - intros n Hn Hnone. apply Hmiss. split; [by apply Hclosed|done].
  - intros n ps q real arch Hn Hps Hq Hreal Harch Hne.
    destruct (Hvis n (Hclosed n Hn)) as (ps' & Hps' & Hall).
    assert (ps' = ps) as -> by congruence.
    destruct (Hall q Hq) as (real' & arch' & Hreal' & Harch' & Hdiff & _).
    assert (real' = real) as -> by congruence.
    assert (arch' = arch) as -> by congruence. by apply Hdiff.
  - intros s current Hnew Hnone. rewrite visit_unfold.
    rewrite decide_False by done. by rewrite Hnone.
  - intros s q real arch Hreal Harch Hne. rewrite visit_dep_path_unfold.
    rewrite Hreal. simpl. rewrite Harch. simpl. by rewrite decide_True.
Qed.

(** C8: the final [seen], [missing] and [wrong_arch] of the script's
    loop (which pops the last name) are those of every run that takes the
    queued names in any order and ends with an empty queue, first-in
    first-out included ([fifo_walk_Finished]). *)
Theorem walk_order_is_irrelevant deps0 fuel st st' :
  closure_walk fuel (initial_state deps0) = Finished st →
  rtc any_step (initial_state deps0) st' →
  deps st' = [] →
  seen st = seen st' ∧ missing st = missing st'
  ∧ wrong_arch st = wrong_arch st'.
Proof.
  intros [Hinv Hend]%walk_inv_Finished Hrun Hend'.
  eapply walk_inv_final_unique; [done..| |done].
  eapply walk_inv_run; [apply walk_inv_initial|done].
Qed.

End Results.

(** *** The results on concrete images *)

Lemma missing_within_seen_witness :
  ∃ st,
    closure_walk Fixtures.mixed Fixtures.out "x86-64" 4
      (initial_state ["libc.so.6"; "libfoo.so"; "libbar.so"]) = Finished st
    ∧ missing st ⊆ seen st
    ∧ ∀ real arch, wrong_arch st !! real = Some arch →
        ∃ n dep_paths dep_path,
          n ∈ seen st
          ∧ find_dependencies_with_name Fixtures.mixed Fixtures.out n
            = Ok dep_paths
          ∧ dep_path ∈ dep_paths
          ∧ real_dep_path Fixtures.mixed Fixtures.out dep_path = Ok real.
Proof.
  destruct (finished_with_true (λ _, true)
              (closure_walk Fixtures.mixed Fixtures.out "x86-64" 4
                 (initial_state ["libc.so.6"; "libfoo.so"; "libbar.so"])))
    as (st & Hrun & _); [vm_compute; reflexivity|].
  exists st. split; [exact Hrun|].
  exact (missing_within_seen Fixtures.mixed Fixtures.out "x86-64"
           ["libc.so.6"; "libfoo.so"; "libbar.so"] st
           (proj1 (closure_walk_Finished _ _ _ _ _ _ Hrun))).
Defined.

(** C2 (as stated, refuted): in Scenario B the one missing name,
    [libfoo.so], is in [missing] and in [seen] when the walk ends, so the
    two sets are not disjoint. *)
Lemma missing_name_is_seen :
  ∃ r, main Fixtures.scenario_B 1 Fixtures.image_ref Fixtures.target true
       = Finished r
       ∧ "libfoo.so" ∈ missing (closure r)
       ∧ "libfoo.so" ∈ seen (closure r)
       ∧ ¬ (missing (closure r) ## seen (closure r)).
Proof.
  destruct (finished_with_true
              (λ r, bool_decide ("libfoo.so" ∈ missing (closure r)
                                 ∧ "libfoo.so" ∈ seen (closure r)))
              (main Fixtures.scenario_B 1 Fixtures.image_ref Fixtures.target
                 true)) as (r & Hrun & [Hmissing Hseen]%bool_decide_eq_true);
    [vm_compute; reflexivity|].
  exists r. split_and!; [done..|].
  rewrite elem_of_disjoint. intros Hd. by apply (Hd "libfoo.so").
Qed.

Lemma missing_and_mismatched_are_terminal_witness :
  ∃ st,
    closure_walk Fixtures.mixed Fixtures.out "x86-64" 4
      (initial_state ["libc.so.6"; "libfoo.so"; "libbar.so"]) = Finished st
    ∧ "libfoo.so" ∈ missing st
    ∧ wrong_arch st !! Fixtures.P "usr/lib/libbar.so.1.0" = Some "ARM aarch64"
    ∧ ("libbaz.so" ∉ seen st)
    ∧ (¬ Reach Fixtures.mixed Fixtures.out "x86-64"
           ["libc.so.6"; "libfoo.so"; "libbar.so"] "libbaz.so").
Proof.
  destruct (finished_with_true
              (λ st, bool_decide ("libbaz.so" ∉ seen st))
              (closure_walk Fixtures.mixed Fixtures.out "x86-64" 4
                 (initial_state ["libc.so.6"; "libfoo.so"; "libbar.so"])))
    as (st & Hrun & Hbaz%bool_decide_eq_true); [vm_compute; reflexivity|].
  exists st. split; [exact Hrun|].
  destruct (missing_and_mismatched_are_terminal Fixtures.mixed Fixtures.out
              "x86-64" ["libc.so.6"; "libfoo.so"; "libbar.so"] 4 st Hrun)
    as (Hseen & Hmissing & Hwrong & _).
  split; [|split; [|split]].
  - apply Hmissing; [|vm_compute; reflexivity].
    apply Reach_start, list_elem_of_further, list_elem_of_here.
  - apply (Hwrong "libbar.so"
             [PurePath.joinpath Fixtures.out (Fixtures.P "usr/lib/libbar.so")]
             (PurePath.joinpath Fixtures.out (Fixtures.P "usr/lib/libbar.so"))).
    + apply Reach_start.
      apply list_elem_of_further, list_elem_of_further, list_elem_of_here.
    + vm_compute. reflexivity.
    + apply list_elem_of_here.
    + vm_compute. reflexivity.
    + vm_compute. reflexivity.
    + discriminate.
  - exact Hbaz.
  - intros Hreach. apply Hbaz. by apply Hseen.
Defined.

Lemma walk_order_is_irrelevant_witness :
  ∃ st st',
    closure_walk Fixtures.mixed Fixtures.out "x86-64" 4
      (initial_state ["libc.so.6"; "libfoo.so"; "libbar.so"]) = Finished st
    ∧ fifo_walk Fixtures.mixed Fixtures.out "x86-64" 4
        (initial_state ["libc.so.6"; "libfoo.so"; "libbar.so"]) = Finished st'
    ∧ seen st = seen st' ∧ missing st = missing st'
    ∧ wrong_arch st = wrong_arch st'.
Proof.
  destruct (finished_with_true (λ _, true)
              (closure_walk Fixtures.mixed Fixtures.out "x86-64" 4
                 (initial_state ["libc.so.6"; "libfoo.so"; "libbar.so"])))
    as (st & Hrun & _); [vm_compute; reflexivity|].
  destruct (finished_with_true (λ _, true)
              (fifo_walk Fixtures.mixed Fixtures.out "x86-64" 4
                 (initial_state ["libc.so.6"; "libfoo.so"; "libbar.so"])))
    as (st' & Hrun' & _); [vm_compute; reflexivity|].
  exists st, st'. split; [exact Hrun|]. split; [exact Hrun'|].
  destruct (fifo_walk_Finished _ _ _ _ _ _ Hrun') as [Hany Hend].
  exact (walk_order_is_irrelevant Fixtures.mixed Fixtures.out "x86-64"
           ["libc.so.6"; "libfoo.so"; "libbar.so"] 4 st st' Hrun Hany Hend).
Defined.

(** ** Several files for one name *)

(** C10: classification is per file, not per name.  When a seen name has a
    file [good] with the architecture of the target and a file [bad] with
    another one, then in the finished run [bad] is in [wrong_arch] under its
    resolved path, the NEEDED entries of [good] were queued by the [for]
    loop and are all in [seen] at the end, and the exit code is 1.  [good]
    and [bad] range over all the files found for the name. *)
Theorem classification_is_per_file w fuel image_ref target_binary clean r
    target_rel target_arch n dep_paths good bad real_good real_bad arch_bad :
  let output_dir := output_dir_of image_ref in
  main w fuel image_ref target_binary clean = Finished r →
  relative_to_root target_binary = Ok target_rel →
  detect_architecture w output_dir target_rel = Ok target_arch →
  n ∈ seen (closure r) →
  find_dependencies_with_name w output_dir n = Ok dep_paths →
  good ∈ dep_paths →
  real_dep_path w output_dir good = Ok real_good →
  detect_architecture w output_dir real_good = Ok target_arch →
  bad ∈ dep_paths →
  real_dep_path w output_dir bad = Ok real_bad →
  detect_architecture w output_dir real_bad = Ok arch_bad →
  arch_bad ≠ target_arch →
  wrong_arch (closure r) !! real_bad = Some arch_bad
  ∧ (∃ needed,
       detect_dependencies w output_dir real_good = Ok needed
       ∧ (∀ m, m ∈ needed → m ∈ seen (closure r))
       ∧ ∀ s s',
           for_dep_paths w output_dir target_arch dep_paths s = Ok s' →
           wrong_arch s' !! real_bad = Some arch_bad
           ∧ ∀ m, m ∈ needed → m ∈ deps s')
  ∧ exit_code r = 1%Z.
Proof.
  intros output_dir Hmain Hrel Htarget Hn Hps Hgood Hrg Hag Hbad Hrb Hab Hne.
  apply main_Finished in Hmain
    as (rel' & arch' & deps0 & st & Hrel' & Harch' & _ & Hwalk & ->).
  fold output_dir in Harch', Hwalk. simpl in *.
  assert (rel' = target_rel) as -> by congruence.
  assert (arch' = target_arch) as -> by congruence.
  apply walk_inv_Finished in Hwalk as [[_ _ _ _ Hvis _] Hend].
  destruct (Hvis n Hn) as (ps' & Hps' & Hall).
  assert (ps' = dep_paths) as -> by congruence.
  assert (wrong_arch st !! real_bad = Some arch_bad) as Hwrong.
  { destruct (Hall bad Hbad) as (real & arch & Hreal & Harch & Hdiff & _).
    assert (real = real_bad) as -> by congruence.
    assert (arch = arch_bad) as -> by congruence. by apply Hdiff. }
  destruct (Hall good Hgood) as (real & arch & Hreal & Harch & _ & Hsame).
  assert (real = real_good) as -> by congruence.
  assert (arch = target_arch) as -> by congruence.
  destruct (Hsame eq_refl) as (needed & Hneeded & Hqueued).
  split_and!; [done| |].
  - exists needed. split_and!; [done| |].
    + intros m Hm. destruct (Hqueued m Hm) as [|Hin]; [done|].
      rewrite Hend in Hin. by apply elem_of_nil in Hin.
    + intros s s' [_ _ _ Heach _ _]%for_dep_paths_Ok. split.
      * destruct (Heach bad Hbad) as (real & arch & Hreal' & Harch'' & Hdiff & _).
        assert (real = real_bad) as -> by congruence.
        assert (arch = arch_bad) as -> by congruence. by apply Hdiff.
      * destruct (Heach good Hgood)
          as (real & arch & Hreal' & Harch'' & _ & Hsame').
        assert (real = real_good) as -> by congruence.
        assert (arch = target_arch) as -> by congruence.
        destruct (Hsame' eq_refl) as (needed' & Hneeded' & Hq').
        assert (needed' = needed) as -> by congruence. done.
  - apply exit_code_of_one. right. intros Hempty.
    by rewrite Hempty, lookup_empty in Hwrong.
Qed.

Lemma classification_is_per_file_witness :
  ∃ r needed,
    main Fixtures.mixed 4 Fixtures.image_ref Fixtures.target true = Finished r
    ∧ wrong_arch (closure r)
        !! Fixtures.P "lib/aarch64-linux-gnu/libc-2.31.so"
      = Some "ARM aarch64"
    ∧ detect_dependencies Fixtures.mixed Fixtures.out
        (Fixtures.P "lib/x86_64-linux-gnu/libc-2.31.so") = Ok needed
    ∧ (∀ m, m ∈ needed → m ∈ seen (closure r))
    ∧ exit_code r = 1%Z.
Proof.
  destruct (finished_with_true
              (λ r, bool_decide ("libc.so.6" ∈ seen (closure r)))
              (main Fixtures.mixed 4 Fixtures.image_ref Fixtures.target true))
    as (r & Hrun & Hseen%bool_decide_eq_true); [vm_compute; reflexivity|].
  destruct (classification_is_per_file Fixtures.mixed 4 Fixtures.image_ref
              Fixtures.target true r
              (Fixtures.P "usr/sbin/dnsmasq") "x86-64" "libc.so.6"
              [PurePath.joinpath Fixtures.out
                 (Fixtures.P "lib/x86_64-linux-gnu/libc.so.6");
               PurePath.joinpath Fixtures.out
                 (Fixtures.P "lib/aarch64-linux-gnu/libc.so.6")]
              (PurePath.joinpath Fixtures.out
                 (Fixtures.P "lib/x86_64-linux-gnu/libc.so.6"))
              (PurePath.joinpath Fixtures.out
                 (Fixtures.P "lib/aarch64-linux-gnu/libc.so.6"))
              (Fixtures.P "lib/x86_64-linux-gnu/libc-2.31.so")
              (Fixtures.P "lib/aarch64-linux-gnu/libc-2.31.so")
              "ARM aarch64")
    as (Hwrong & (needed & Hneeded & Hall & _) & Hexit).
  - exact Hrun.
  - vm_compute. reflexivity.
  - vm_compute. reflexivity.
  - exact Hseen.
  - vm_compute. reflexivity.
  - apply list_elem_of_here.
  - vm_compute. reflexivity.
  - vm_compute. reflexivity.
  - apply list_elem_of_further, list_elem_of_here.
  - vm_compute. reflexivity.
  - vm_compute. reflexivity.
  - discriminate.
  - exists r, needed. split_and!; [exact Hrun|exact Hwrong|exact Hneeded| |exact Hexit].
    exact Hall.
Defined.

(** * Further properties of the functions of the script *)

(** ** Strings *)

Lemma has_char_rev_app c s1 s2 :
  PyStr.has_char c (String.rev_app s1 s2)
  = PyStr.has_char c s1 || PyStr.has_char c s2.
Proof.
  revert s2. induction s1 as [|a s1 IH]; intros s2; simpl; [done|].
  rewrite IH. simpl. destruct (Ascii.eqb a c), (PyStr.has_char c s1); done.
Qed.

Lemma has_char_rev c s : PyStr.has_char c (String.rev s) = PyStr.has_char c s.
Proof. unfold String.rev. rewrite has_char_rev_app. simpl. by rewrite orb_false_r. Qed.

Lemma str_any_rev_app p s1 s2 :
  str_any p (String.rev_app s1 s2) = str_any p s1 || str_any p s2.
Proof.
  revert s2. induction s1 as [|a s1 IH]; intros s2; simpl; [done|].
  rewrite IH. simpl. destruct (p a), (str_any p s1); done.
Qed.

Lemma str_any_rev p s : str_any p (String.rev s) = str_any p s.
Proof. unfold String.rev. rewrite str_any_rev_app. simpl. by rewrite orb_false_r. Qed.

Lemma append_cons a s t : String a s +:+ t = String a (s +:+ t).
Proof. reflexivity. Qed.

Lemma append_empty_r s : s +:+ "" = s.
Proof. induction s as [|a s IH]; [done|]. by rewrite append_cons, IH. Qed.

Lemma append_assoc s1 s2 s3 : (s1 +:+ s2) +:+ s3 = s1 +:+ (s2 +:+ s3).
Proof. induction s1 as [|a s1 IH]; [done|]. by rewrite !append_cons, IH. Qed.

Lemma rev_app_rev_app s1 s2 s3 :
  String.rev_app (String.rev_app s1 s2) s3 = String.rev_app s2 (s1 +:+ s3).
Proof.
  revert s2 s3. induction s1 as [|a s1 IH]; intros s2 s3; [done|].
  rewrite append_cons. simpl. by rewrite IH.
Qed.

Lemma rev_rev s : String.rev (String.rev s) = s.
Proof.
  unfold String.rev. rewrite rev_app_rev_app. apply append_empty_r.
Qed.

Lemma rev_app_append s1 s2 :
  String.rev_app s1 s2 = String.rev s1 +:+ s2.
Proof.
  unfold String.rev. revert s2.
  induction s1 as [|a s1 IH]; intros s2; [done|]. simpl.
  rewrite IH, (IH (String a "")), append_assoc. done.
Qed.

Lemma rev_append s1 s2 :
  String.rev (s1 +:+ s2) = String.rev s2 +:+ String.rev s1.
Proof.
  induction s1 as [|a s1 IH].
  - by rewrite append_empty_r.
  - rewrite append_cons. unfold String.rev at 1 3. simpl.
    rewrite !(rev_app_append _ (String a "")), IH, append_assoc. done.
Qed.

Lemma rev_empty s : String.rev s = "" → s = "".
Proof. intros H. by rewrite <- (rev_rev s), H. Qed.

Lemma has_char_lstrip c s :
  PyStr.has_char c (PyStr.lstrip s) = true → PyStr.has_char c s = true.
Proof.
  induction s as [|a s IH]; simpl; [done|].
  destruct (PyStr.isspace a); [|done].
  intros H%IH. rewrite H. apply orb_true_r.
Qed.

Lemma has_char_strip c s :
  PyStr.has_char c (PyStr.strip s) = true → PyStr.has_char c s = true.
Proof.
  unfold PyStr.strip, PyStr.rstrip. rewrite has_char_rev.
  intros H%has_char_lstrip. rewrite has_char_rev in H.
  by apply has_char_lstrip.
Qed.

Lemma lstrip_no_space s : starts_with_space (PyStr.lstrip s) = false.
Proof.
  induction s as [|a s IH]; simpl; [done|].
  destruct (PyStr.isspace a) eqn:Ha; [done|]. simpl. done.
Qed.

Lemma lstrip_append z w :
  w ≠ "" → starts_with_space w = false →
  PyStr.lstrip (z +:+ w) = PyStr.lstrip z +:+ w.
Proof.
  intros Hne Hw. induction z as [|a z IH].
  - change (PyStr.lstrip w = w). destruct w as [|b w]; [done|].
    simpl in *. by rewrite Hw.
  - rewrite append_cons. simpl. by destruct (PyStr.isspace a).
Qed.

Lemma rstrip_no_space s : ends_with_space (PyStr.rstrip s) = false.
Proof.
  unfold ends_with_space, PyStr.rstrip. rewrite rev_rev. apply lstrip_no_space.
Qed.

Lemma rstrip_keeps_start s :
  starts_with_space s = false → starts_with_space (PyStr.rstrip s) = false.
Proof.
  destruct s as [|a s]; [done|]. simpl. intros Ha. unfold PyStr.rstrip.
  change (String a s) with (String a "" +:+ s).
  rewrite rev_append, lstrip_append by done.
  by rewrite rev_append.
Qed.

(** [strip()] leaves no white space at either end. *)
Lemma strip_no_space s :
  starts_with_space (PyStr.strip s) = false
  ∧ ends_with_space (PyStr.strip s) = false.
Proof.
  unfold PyStr.strip. split; [|apply rstrip_no_space].
  apply rstrip_keeps_start, lstrip_no_space.
Qed.

Lemma split_pieces_no_sep sep s :
  Forall (λ piece, PyStr.has_char sep piece = false) (PyStr.split sep s).
Proof.
  induction s as [|a s IH]; simpl; [by repeat constructor|].
  destruct (Ascii.eqb a sep) eqn:Ha; [by constructor|].
  destruct (PyStr.split sep s) as [|piece pieces]; [by repeat constructor; simpl; rewrite Ha|].
  apply Forall_cons in IH as [Hp Hps]. constructor; [|done].
  simpl. by rewrite Ha.
Qed.

(** ** [replace_img_special_chars] and the extraction root *)

Lemma replace_removes a b s :
  a ≠ b → PyStr.has_char a (PyStr.replace a b s) = false.
Proof.
  intros Hab. induction s as [|c s IH]; simpl; [done|]. rewrite IH.
  destruct (Ascii.eqb c a) eqn:Hc; rewrite orb_false_r.
  - apply Ascii.eqb_neq. congruence.
  - done.
Qed.

Lemma replace_keeps_absent c a b s :
  c ≠ b → PyStr.has_char c s = false →
  PyStr.has_char c (PyStr.replace a b s) = false.
Proof.
  intros Hcb. induction s as [|d s IH]; simpl; [done|].
  intros [Hd Hs]%orb_false_iff. rewrite (IH Hs), orb_false_r.
  destruct (Ascii.eqb d a); [|done]. apply Ascii.eqb_neq. congruence.
Qed.

Lemma replace_img_special_chars_no_slash image_ref :
  PyStr.has_char "/"%char (replace_img_special_chars image_ref) = false.
Proof.
  unfold replace_img_special_chars.
  apply replace_keeps_absent; [done|]. by apply replace_removes.
Qed.

(** X1: the container name made from an image reference has no slash and
    no colon, whatever lowering the case did to the reference: the two
    replacements remove them from every text. *)
Theorem replace_img_special_chars_safe image_ref :
  PyStr.has_char "/"%char (replace_img_special_chars image_ref) = false
  ∧ PyStr.has_char ":"%char (replace_img_special_chars image_ref) = false
  ∧ ∀ lowered,
      PyStr.has_char "/"%char
        (PyStr.replace ":"%char "_"%char
           (PyStr.replace "/"%char "_"%char lowered)) = false
      ∧ PyStr.has_char ":"%char
          (PyStr.replace ":"%char "_"%char
             (PyStr.replace "/"%char "_"%char lowered)) = false.
Proof.
  split_and!.
  - apply replace_img_special_chars_no_slash.
  - unfold replace_img_special_chars. by apply replace_removes.
  - intros lowered. split.
    + apply replace_keeps_absent; [done|]. by apply replace_removes.
    + by apply replace_removes.
Qed.

Lemma startswith_slash_no_slash s :
  PyStr.has_char "/"%char s = false → PyStr.startswith "/" s = false.
Proof.
  destruct s as [|c s]; [done|]. intros Hs. simpl in Hs.
  apply orb_false_iff in Hs as [Hc _].
  unfold PyStr.startswith.
  change (String.prefix "/" (String c s))
    with (if ascii_dec "/" c then String.prefix "" s else false).
  destruct (ascii_dec "/" c) as [<-|]; [|done].
  by rewrite Ascii.eqb_refl in Hc.
Qed.

(** A text without slash is a path of at most one component. *)
Lemma parse_no_slash s :
  PyStr.has_char "/"%char s = false →
  PurePath.parse s = MkPath "" (filter PurePath.kept [s]).
Proof.
  intros Hs. unfold PurePath.parse, PurePath.splitroot.
  rewrite startswith_slash_no_slash by done.
  by rewrite split_without_sep.
Qed.

(** X2: the extraction root [main] works in is a relative path directly
    under [.test-images]: its components are [.test-images] and the
    container name, or [.test-images] alone when the container name is
    empty or a single dot. *)
Theorem output_dir_under_image_dir image_ref :
  output_dir_of image_ref
  = MkPath "" (IMAGE_DIR ::
                 if decide (PurePath.kept (replace_img_special_chars image_ref))
                 then [replace_img_special_chars image_ref] else []).
Proof.
  unfold output_dir_of, PurePath.parse2.
  rewrite (parse_no_slash _ (replace_img_special_chars_no_slash image_ref)). rewrite filter_singleton; [|exact []].
  by case_decide.
Qed.

(** ** [relative_to_root] *)

(** X3: [relative_to_root] never raises; it returns the components of the
    path without the anchor, and a path that does not start with a slash
    is returned as it is. *)
Theorem relative_to_root_total path :
  (∃ p, relative_to_root path = Ok p ∧ root p = ""
        ∧ parts p = parts (PurePath.parse path))
  ∧ (PyStr.startswith "/" path = false →
     relative_to_root path = Ok (PurePath.parse path)).
Proof.
  rewrite relative_to_root_spec. split; [by eexists|].
  intros Hrel. f_equal. unfold PurePath.parse, PurePath.splitroot.
  by rewrite Hrel.
Qed.

(** ** [detect_architecture] on every output *)

Lemma split_with_sep sep s :
  PyStr.has_char sep s = true →
  ∃ first second rest, PyStr.split sep s = first :: second :: rest.
Proof.
  induction s as [|c s IH]; simpl; [done|].
  destruct (Ascii.eqb c sep); simpl.
  - intros _. pose proof (split_not_nil sep s).
    destruct (PyStr.split sep s) as [|second rest]; [done|]. by eexists _, _, _.
  - intros (first & second & rest & ->)%IH. by eexists _, _, _.
Qed.

(** X4: [detect_architecture] raises [IndexError] whenever [file] printed
    no comma; when it printed one, the tag returned is the text between
    the first comma and the next one (or the end) without the white space
    around it: the tag holds no comma and neither starts nor ends with
    white space. *)
Theorem detect_architecture_tag w cwd target_binary stdout :
  file_stdout w cwd target_binary = Ok stdout →
  (PyStr.has_char ","%char stdout = false →
   detect_architecture w cwd target_binary = Raise IndexError)
  ∧ (PyStr.has_char ","%char stdout = true →
     ∃ first second rest,
       PyStr.split ","%char stdout = first :: second :: rest
       ∧ detect_architecture w cwd target_binary = Ok (PyStr.strip second)
       ∧ PyStr.has_char ","%char (PyStr.strip second) = false
       ∧ starts_with_space (PyStr.strip second) = false
       ∧ ends_with_space (PyStr.strip second) = false).
Proof.
  intros Hout. split; [by apply detect_architecture_without_comma|].
  intros (first & second & rest & Hsplit)%split_with_sep.
  exists first, second, rest. split; [done|].
  unfold detect_architecture. rewrite Hout. simpl.
  rewrite architecture_of_output_indexes, Hsplit. split; [done|].
  split; [|apply strip_no_space].
  pose proof (split_pieces_no_sep ","%char stdout) as Hall.
  rewrite Hsplit in Hall. apply Forall_cons in Hall as [_ Hall].
  apply Forall_cons in Hall as [Hsecond _].
  destruct (PyStr.has_char ","%char (PyStr.strip second)) eqn:Hs; [|done].
  apply has_char_strip in Hs. congruence.
Qed.

Lemma detect_architecture_tag_witness :
  detect_architecture Fixtures.scenario_A Fixtures.out
    (Fixtures.P "usr/sbin/dnsmasq") = Ok "x86-64".
Proof.
  assert (file_stdout Fixtures.scenario_A Fixtures.out
            (Fixtures.P "usr/sbin/dnsmasq")
          = Ok (Fixtures.elf_x86_64 "usr/sbin/dnsmasq")) as Hout
    by (vm_compute; reflexivity).
  destruct (proj2 (detect_architecture_tag _ _ _ _ Hout))
    as (first & second & rest & Hsplit & Htag & _);
    [vm_compute; reflexivity|].
  rewrite Htag. f_equal.
  assert (PyStr.split ","%char (Fixtures.elf_x86_64 "usr/sbin/dnsmasq")
          = ["usr/sbin/dnsmasq: ELF 64-bit LSB shared object"; " x86-64";
             " version 1 (SYSV)"; " dynamically linked";
             " stripped" +:+ Fixtures.nl]) as Hpieces
    by (vm_compute; reflexivity).
  rewrite Hpieces in Hsplit. injection Hsplit as _ <- _. reflexivity.
Defined.

(** ** [detect_dependencies] on every output *)

Lemma split_ws_go_tokens cur s :
  str_any PyStr.isspace cur = false →
  Forall token (PyStr.split_ws_go cur s).
Proof.
  assert (∀ cur, cur ≠ "" → str_any PyStr.isspace cur = false →
                 token (String.rev cur)) as Hrev.
  { intros c Hne Hc. split; [by intros ?%rev_empty|]. by rewrite str_any_rev. }
  revert cur. induction s as [|c s IH]; intros cur Hcur; simpl.
  - case_decide; [constructor|]. constructor; [by apply Hrev|constructor].
  - destruct (PyStr.isspace c) eqn:Hc.
    + case_decide; [by apply IH|]. constructor; [by apply Hrev|by apply IH].
    + apply IH. simpl. by rewrite Hc.
Qed.

Lemma split_ws_tokens s : Forall token (PyStr.split_ws s).
Proof. by apply split_ws_go_tokens. Qed.

(** The lines [detect_dependencies] reads a name from. *)
Lemma needed_of_lines_Ok lines acc names :
  needed_of_lines lines acc = Ok names →
  ∃ new,
    names = acc ++ new
    ∧ Forall2 (λ line name, PyStr.split_ws line !! 1 = Some name)
        (filter (λ line, PyStr.contains "NEEDED" line = true) lines) new.
Proof.
  revert acc. induction lines as [|line lines IH]; intros acc; simpl.
  { intros [= <-]. exists []. by rewrite app_nil_r. }
  destruct (PyStr.contains "NEEDED" line) eqn:Hline.
  - rewrite filter_cons_True by done. unfold py_index.
    destruct (PyStr.split_ws line !! 1) as [name|] eqn:Hname; [|done]. simpl.
    intros (new & -> & Hnew)%IH. exists (name :: new).
    split; [by rewrite <- app_assoc|]. by constructor.
  - rewrite filter_cons_False by (by rewrite Hline). apply IH.
Qed.

Lemma needed_of_lines_Raise lines acc e :
  needed_of_lines lines acc = Raise e →
  e = IndexError
  ∧ ∃ line, line ∈ lines ∧ PyStr.contains "NEEDED" line = true
            ∧ PyStr.split_ws line !! 1 = None.
Proof.
  revert acc. induction lines as [|line lines IH]; intros acc; simpl; [done|].
  destruct (PyStr.contains "NEEDED" line) eqn:Hline.
  - unfold py_index.
    destruct (PyStr.split_ws line !! 1) as [name|] eqn:Hname; simpl.
    + intros (-> & line' & ? & ?)%IH. split; [done|]. exists line'. set_solver.
    + intros [= <-]. split; [done|]. exists line. set_solver.
  - intros (-> & line' & ? & ?)%IH. split; [done|]. exists line'. set_solver.
Qed.

(** X5: when [detect_dependencies] returns, it returns one name for each
    line of the output of [objdump] that contains [NEEDED], in the order of
    the lines and with repetitions: the second white-space separated field
    of that line.  So every name is a token: it is not empty and holds no
    white space. *)
Theorem detect_dependencies_names w cwd target_binary stdout names :
  objdump_stdout w cwd target_binary = Ok stdout →
  detect_dependencies w cwd target_binary = Ok names →
  Forall2 (λ line name, PyStr.split_ws line !! 1 = Some name)
    (filter (λ line, PyStr.contains "NEEDED" line = true)
       (PyStr.splitlines stdout))
    names
  ∧ Forall token names.
Proof.
  intros Hout. unfold detect_dependencies. rewrite Hout. simpl.
  intros (new & -> & Hnew)%needed_of_lines_Ok. simpl. split; [done|].
  induction Hnew as [|line name lines new Hname _ IH]; constructor; [|done].
  pose proof (split_ws_tokens line) as Htokens.
  rewrite Forall_forall in Htokens. apply Htokens.
  by eapply list_elem_of_lookup_2.
Qed.

Lemma detect_dependencies_names_witness :
  Forall token ["libc.so.6"; "libfoo.so"; "libbar.so"].
Proof.
  refine (proj2 (detect_dependencies_names Fixtures.mixed Fixtures.out
                   (Fixtures.P "usr/sbin/dnsmasq")
                   (Fixtures.objdump_text "usr/sbin/dnsmasq"
                      ["libc.so.6"; "libfoo.so"; "libbar.so"])
                   ["libc.so.6"; "libfoo.so"; "libbar.so"] _ _));
    vm_compute; reflexivity.
Defined.

(** X6: [detect_dependencies] raises nothing but [IndexError], and it does
    so exactly when some line of the output contains [NEEDED] and has fewer
    than two white-space separated fields (a line that is [NEEDED] alone,
    say); an output without any such line, the empty output included, is
    read without error. *)
Theorem detect_dependencies_errors w cwd target_binary stdout :
  objdump_stdout w cwd target_binary = Ok stdout →
  (detect_dependencies w cwd target_binary = Raise IndexError
   ↔ ∃ line, line ∈ PyStr.splitlines stdout
             ∧ PyStr.contains "NEEDED" line = true
             ∧ PyStr.split_ws line !! 1 = None)
  ∧ (∀ e, detect_dependencies w cwd target_binary = Raise e → e = IndexError).
Proof.
  intros Hout. unfold detect_dependencies. rewrite Hout. simpl. split.
  - split.
    + by intros (_ & ?)%needed_of_lines_Raise.
    + intros (line & Hin & Hline & Hnone).
      destruct (needed_of_lines (PyStr.splitlines stdout) []) as [names|e]
        eqn:Hrun.
      * apply needed_of_lines_Ok in Hrun as (new & _ & Hnew).
        assert (line ∈ filter (λ line, PyStr.contains "NEEDED" line = true)
                         (PyStr.splitlines stdout)) as Hfiltered
          by (by apply list_elem_of_filter).
        apply list_elem_of_lookup in Hfiltered as [i Hi].
        destruct (Forall2_lookup_l _ _ _ _ _ Hnew Hi) as (name & _ & Hname).
        congruence.
      * by apply needed_of_lines_Raise in Hrun as [-> _].
  - by intros e (-> & _)%needed_of_lines_Raise.
Qed.

Lemma detect_dependencies_errors_witness :
  (detect_dependencies Fixtures.mixed Fixtures.out
     (Fixtures.P "usr/sbin/dnsmasq") = Raise IndexError
   ↔ ∃ line,
       line ∈ PyStr.splitlines
                (Fixtures.objdump_text "usr/sbin/dnsmasq"
                   ["libc.so.6"; "libfoo.so"; "libbar.so"])
       ∧ PyStr.contains "NEEDED" line = true
       ∧ PyStr.split_ws line !! 1 = None)
  ∧ (∀ e, detect_dependencies Fixtures.mixed Fixtures.out
            (Fixtures.P "usr/sbin/dnsmasq") = Raise e → e = IndexError).
Proof.
  apply (detect_dependencies_errors Fixtures.mixed Fixtures.out
           (Fixtures.P "usr/sbin/dnsmasq")).
  vm_compute. reflexivity.
Defined.

(** ** [resolve_container_link] on relative targets *)

Lemma take_eq_prefix {A} (l k : list A) :
  take (length k) l = k ↔ k `prefix_of` l.
Proof.
  split.
  - intros Htake. exists (drop (length k) l).
    by rewrite <- Htake at 1; rewrite take_drop.
  - intros [rest ->]. by rewrite take_app_length.
Qed.

(** [relative_to] an anchored path: an error unless it is a prefix, and
    the result joined to it gives the path back. *)
Lemma relative_to_anchored self other :
  root other ≠ "" →
  (PurePath.relative_to self other = Raise ValueError
   ↔ ¬ PurePath.abs_parts other `prefix_of` PurePath.abs_parts self)
  ∧ (∀ p, PurePath.relative_to self other = Ok p → root self ≠ "" →
          PurePath.joinpath other p = self).
Proof.
  intros Hother. unfold PurePath.relative_to.
  assert (PurePath.abs_parts other = "" :: root other :: parts other) as Habs.
  { unfold PurePath.abs_parts. by rewrite decide_True. }
  rewrite Habs. cbn [length Nat.eqb].
  change (S (S (length (parts other))))
    with (length ("" :: root other :: parts other)).
  rewrite <- (take_eq_prefix (PurePath.abs_parts self)). split.
  - case_bool_decide; naive_solver.
  - intros p. case_bool_decide as Htake; [done|]. intros [= <-] Hself.
    revert Htake.
    unfold PurePath.abs_parts at 1 2. rewrite decide_True by done.
    cbn [length take drop]. intros [= Hroot Hparts].
    unfold PurePath.joinpath. cbn [root parts].
    rewrite decide_False by (by intros []).
    destruct self as [r ps]. cbn [root parts] in *. subst r.
    f_equal. rewrite <- Hparts at 1. apply take_drop.
Qed.

(** X7: for a symlink with a relative target, with both the link and the
    extraction root resolving to anchored paths, [resolve_container_link]
    raises [ValueError] exactly when the resolved root is not a prefix of
    the resolved link, and a path it returns, joined to the resolved root,
    is the resolved link. *)
Theorem resolve_container_link_relative w root_dir link target real real_root :
  readlink w link = Ok target →
  PyStr.startswith "/" target = false →
  resolve w link = Ok real →
  resolve w root_dir = Ok real_root →
  root real ≠ "" → root real_root ≠ "" →
  (resolve_container_link w root_dir link = Raise ValueError
   ↔ ¬ PurePath.abs_parts real_root `prefix_of` PurePath.abs_parts real)
  ∧ (∀ p, resolve_container_link w root_dir link = Ok p →
          PurePath.joinpath real_root p = real).
Proof.
  intros Hlink Hrel Hreal Hroot Hanchored Hroot_anchored.
  unfold resolve_container_link. rewrite Hlink. simpl.
  rewrite Hrel, Hreal. simpl. rewrite Hroot. simpl.
  destruct (relative_to_anchored real real_root Hroot_anchored) as [Hraise Hok].
  split; [done|]. intros p Hp. by apply Hok.
Qed.

Lemma resolve_container_link_relative_witness :
  resolve_container_link Fixtures.links (Fixtures.P "/srv/img")
    (Fixtures.P "/srv/img/lib/libout.so") = Raise ValueError
  ∧ (∀ p, resolve_container_link Fixtures.links (Fixtures.P "/srv/img")
            (Fixtures.P "/srv/img/lib/libm.so.6") = Ok p →
          PurePath.joinpath (Fixtures.P "/srv/img") p
          = Fixtures.P "/srv/img/lib/libm-2.31.so").
Proof.
  split.
  - apply (resolve_container_link_relative Fixtures.links
             (Fixtures.P "/srv/img") (Fixtures.P "/srv/img/lib/libout.so")
             "../../../etc/passwd" (Fixtures.P "/etc/passwd")
             (Fixtures.P "/srv/img")); try (vm_compute; reflexivity);
      try (by vm_compute).
    apply (bool_decide_eq_false _). by vm_compute.
  - apply (resolve_container_link_relative Fixtures.links
             (Fixtures.P "/srv/img") (Fixtures.P "/srv/img/lib/libm.so.6")
             "libm-2.31.so" (Fixtures.P "/srv/img/lib/libm-2.31.so")
             (Fixtures.P "/srv/img")); try (vm_compute; reflexivity);
      by vm_compute.
Defined.

(** ** What the walk reports *)

(** X8: a finished walk misses nothing: a name is in the final [seen]
    exactly when it can be reached from the first work list through files
    that were found with the architecture of the target; in particular
    every name of the first work list is in [seen]. *)
Theorem seen_is_the_closure w output_dir target_binary_arch deps0 fuel st :
  closure_walk w output_dir target_binary_arch fuel (initial_state deps0)
  = Finished st →
  (∀ n, n ∈ seen st ↔ Reach w output_dir target_binary_arch deps0 n)
  ∧ (∀ n, n ∈ deps0 → n ∈ seen st).
Proof.
  intros [Hinv Hend]%walk_inv_Finished.
  assert (∀ n, Reach w output_dir target_binary_arch deps0 n → n ∈ seen st)
    as Hclosed by (intros n; by apply walk_inv_closed).
  split.
  - intros n. split; [by apply (inv_reach_seen _ _ _ _ _ Hinv)|apply Hclosed].
  - intros n Hn. apply Hclosed. by apply Reach_start.
Qed.

Lemma seen_is_the_closure_witness :
  ∃ st,
    closure_walk Fixtures.mixed Fixtures.out "x86-64" 4
      (initial_state ["libc.so.6"; "libfoo.so"; "libbar.so"]) = Finished st
    ∧ ∀ n, n ∈ ["libc.so.6"; "libfoo.so"; "libbar.so"] → n ∈ seen st.
Proof.
  destruct (finished_with_true (λ _, true)
              (closure_walk Fixtures.mixed Fixtures.out "x86-64" 4
                 (initial_state ["libc.so.6"; "libfoo.so"; "libbar.so"])))
    as (st & Hrun & _); [vm_compute; reflexivity|].
  exists st. split; [exact Hrun|].
  exact (proj2 (seen_is_the_closure Fixtures.mixed Fixtures.out "x86-64"
                  ["libc.so.6"; "libfoo.so"; "libbar.so"] 4 st Hrun)).
Defined.

(** X9: after every turn of the loop, [missing] holds exactly the seen
    names for which the search ([root_dir.glob]) returned nothing: a name
    for which the search returned at least one path is never reported
    missing. *)
Theorem missing_is_exact w output_dir target_binary_arch deps0 st :
  rtc (walk_step w output_dir target_binary_arch) (initial_state deps0) st →
  ∀ n, n ∈ missing st
       ↔ n ∈ seen st ∧ find_dependencies_with_name w output_dir n = Ok [].
Proof. intros Hinv%walk_inv_reached. apply (inv_missing _ _ _ _ _ Hinv). Qed.

Lemma missing_is_exact_witness :
  ∃ st,
    closure_walk Fixtures.mixed Fixtures.out "x86-64" 4
      (initial_state ["libc.so.6"; "libfoo.so"; "libbar.so"]) = Finished st
    ∧ ∀ n, n ∈ missing st
           ↔ n ∈ seen st
             ∧ find_dependencies_with_name Fixtures.mixed Fixtures.out n
               = Ok [].
Proof.
  destruct (finished_with_true (λ _, true)
              (closure_walk Fixtures.mixed Fixtures.out "x86-64" 4
                 (initial_state ["libc.so.6"; "libfoo.so"; "libbar.so"])))
    as (st & Hrun & _); [vm_compute; reflexivity|].
  exists st. split; [exact Hrun|].
  exact (missing_is_exact Fixtures.mixed Fixtures.out "x86-64"
           ["libc.so.6"; "libfoo.so"; "libbar.so"] st
           (proj1 (closure_walk_Finished _ _ _ _ _ _ Hrun))).
Defined.

(** X10: after every turn of the loop, an entry of [wrong_arch] is a file
    whose architecture differs from the target's, recorded with the tag
    [detect_architecture] gives for it: a file of the target's architecture
    is never reported. *)
Theorem wrong_arch_is_sound w output_dir target_binary_arch deps0 st real arch :
  rtc (walk_step w output_dir target_binary_arch) (initial_state deps0) st →
  wrong_arch st !! real = Some arch →
  arch ≠ target_binary_arch
  ∧ detect_architecture w output_dir real = Ok arch.
Proof.
  intros Hinv%walk_inv_reached Hentry.
  by destruct (inv_wrong _ _ _ _ _ Hinv real arch Hentry) as (? & ? & _).
Qed.

Lemma wrong_arch_is_sound_witness :
  ∃ st,
    closure_walk Fixtures.mixed Fixtures.out "x86-64" 4
      (initial_state ["libc.so.6"; "libfoo.so"; "libbar.so"]) = Finished st
    ∧ wrong_arch st !! Fixtures.P "usr/lib/libbar.so.1.0" = Some "ARM aarch64"
    ∧ detect_architecture Fixtures.mixed Fixtures.out
        (Fixtures.P "usr/lib/libbar.so.1.0") = Ok "ARM aarch64".
Proof.
  destruct (finished_with_true
              (λ st, bool_decide
                       (wrong_arch st !! Fixtures.P "usr/lib/libbar.so.1.0"
                        = Some "ARM aarch64"))
              (closure_walk Fixtures.mixed Fixtures.out "x86-64" 4
                 (initial_state ["libc.so.6"; "libfoo.so"; "libbar.so"])))
    as (st & Hrun & Hentry%bool_decide_eq_true); [vm_compute; reflexivity|].
  exists st. split; [exact Hrun|]. split; [exact Hentry|].
  exact (proj2 (wrong_arch_is_sound Fixtures.mixed Fixtures.out "x86-64"
                  ["libc.so.6"; "libfoo.so"; "libbar.so"] st _ _
                  (proj1 (closure_walk_Finished _ _ _ _ _ _ Hrun)) Hentry)).
Defined.

Lemma walk_step_grows w output_dir target_binary_arch deps0 st st' :
  walk_inv w output_dir target_binary_arch deps0 st →
  walk_step w output_dir target_binary_arch st st' →
  seen st ⊆ seen st' ∧ missing st ⊆ missing st'
  ∧ wrong_arch st ⊆ wrong_arch st'.
Proof.
  intros Hinv (current & rest & _ & Hvisit).
  destruct (decide (current ∈ seen (set_deps rest st))) as [Hseen|Hnew].
  { rewrite visit_seen in Hvisit by done. by injection Hvisit as <-. }
  apply visit_new in Hvisit as (ps & st1 & _ & Hscan & Hcase); [|done].
  destruct Hscan as [Hs Hm _ _ _ Hold]. simpl in *.
  assert (wrong_arch st ⊆ wrong_arch st1) as Hwrong.
  { apply map_subseteq_spec. intros real arch Hentry. apply Hold; [done|].
    by destruct (inv_wrong _ _ _ _ _ Hinv real arch Hentry) as (_ & ? & _). }
  destruct Hcase as [[_ ->]|[_ ->]]; simpl; rewrite ?Hs, ?Hm; simpl;
    split_and!; try done; set_solver.
Qed.

(** X11: the results only grow.  Between two states of a run of the loop,
    no name leaves [seen] or [missing], and no entry of [wrong_arch] is
    removed or changed. *)
Theorem results_only_grow w output_dir target_binary_arch deps0 st st' :
  rtc (walk_step w output_dir target_binary_arch) (initial_state deps0) st →
  rtc (walk_step w output_dir target_binary_arch) st st' →
  seen st ⊆ seen st' ∧ missing st ⊆ missing st'
  ∧ wrong_arch st ⊆ wrong_arch st'.
Proof.
  intros Hinv%walk_inv_reached Hrun.
  induction Hrun as [st|st st1 st' Hstep _ IH]; [done|].
  destruct (walk_step_grows _ _ _ _ _ _ Hinv Hstep) as (Hs & Hm & Hw).
  destruct IH as (Hs' & Hm' & Hw').
  { eapply walk_inv_step; [done|]. by apply walk_step_any. }
  split_and!; by etrans.
Qed.

Lemma ok_with_true {A} (P : A → bool) (r : result A) :
  ok_with P r = true → ∃ a, r = Ok a ∧ P a = true.
Proof. destruct r as [a|]; [|done]. intros HP. by exists a. Qed.

Lemma turns_run w output_dir target_binary_arch k st st' :
  turns w output_dir target_binary_arch k st = Ok st' →
  rtc (walk_step w output_dir target_binary_arch) st st'.
Proof.
  revert st. induction k as [|k IH]; intros st; simpl; [by intros [= <-]|].
  destruct (pop (deps st)) as [[current rest]|] eqn:Hpop; [|by intros [= <-]].
  destruct (visit w output_dir target_binary_arch current (set_deps rest st))
    as [st1|] eqn:Hvisit; [|done]. simpl.
  intros Hrest%IH. eapply rtc_l; [|done]. by exists current, rest.
Qed.

Lemma results_only_grow_witness :
  ∃ st st',
    turns Fixtures.mixed Fixtures.out "x86-64" 2
      (initial_state ["libc.so.6"; "libfoo.so"; "libbar.so"]) = Ok st
    ∧ closure_walk Fixtures.mixed Fixtures.out "x86-64" 2 st = Finished st'
    ∧ "libbar.so" ∈ seen st
    ∧ "libfoo.so" ∈ missing st
    ∧ wrong_arch st !! Fixtures.P "usr/lib/libbar.so.1.0" = Some "ARM aarch64"
    ∧ "libc.so.6" ∈ seen st' ∖ seen st
    ∧ seen st ⊆ seen st' ∧ missing st ⊆ missing st'
    ∧ wrong_arch st ⊆ wrong_arch st'.
Proof.
  destruct (ok_with_true
              (λ st,
                 bool_decide
                   ("libbar.so" ∈ seen st ∧ "libfoo.so" ∈ missing st
                    ∧ wrong_arch st !! Fixtures.P "usr/lib/libbar.so.1.0"
                      = Some "ARM aarch64")
                 && finished_with
                      (λ st', bool_decide ("libc.so.6" ∈ seen st' ∖ seen st))
                      (closure_walk Fixtures.mixed Fixtures.out "x86-64" 2 st))
              (turns Fixtures.mixed Fixtures.out "x86-64" 2
                 (initial_state ["libc.so.6"; "libfoo.so"; "libbar.so"])))
    as (st & Hturns & Hst); [vm_compute; reflexivity|].
  apply andb_true_iff in Hst as [(Hseen & Hmissing & Hwrong)%bool_decide_eq_true
                                 Hrest].
  apply finished_with_true in Hrest as (st' & Hwalk & Hnew%bool_decide_eq_true).
  exists st, st'. split; [exact Hturns|]. split; [exact Hwalk|].
  split; [exact Hseen|]. split; [exact Hmissing|]. split; [exact Hwrong|].
  split; [exact Hnew|].
  exact (results_only_grow Fixtures.mixed Fixtures.out "x86-64"
           ["libc.so.6"; "libfoo.so"; "libbar.so"] st st'
           (turns_run _ _ _ _ _ _ Hturns)
           (proj1 (closure_walk_Finished _ _ _ _ _ _ Hwalk))).
Defined.

(** ** The verdict of [main] *)

(** X12: exit code 0 is a sound verdict.  When [main] exits with 0, every
    name reachable from the NEEDED entries of the target has at least one
    file in the image, and every file found for it resolved, has the
    architecture of the target and let its own NEEDED entries be read. *)
Theorem pass_verdict_is_sound w fuel image_ref target_binary clean r
    target_rel target_arch deps0 n :
  let output_dir := output_dir_of image_ref in
  main w fuel image_ref target_binary clean = Finished r →
  exit_code r = 0%Z →
  relative_to_root target_binary = Ok target_rel →
  detect_architecture w output_dir target_rel = Ok target_arch →
  detect_dependencies w output_dir target_rel = Ok deps0 →
  Reach w output_dir target_arch deps0 n →
  ∃ dep_paths,
    find_dependencies_with_name w output_dir n = Ok dep_paths
    ∧ dep_paths ≠ []
    ∧ ∀ dep_path, dep_path ∈ dep_paths →
        ∃ real needed,
          real_dep_path w output_dir dep_path = Ok real
          ∧ detect_architecture w output_dir real = Ok target_arch
          ∧ detect_dependencies w output_dir real = Ok needed.
Proof.
  intros output_dir Hmain Hexit Hrel Harch Hdeps Hreach.
  apply main_Finished in Hmain
    as (rel' & arch' & deps' & st & Hrel' & Harch' & Hdeps' & Hwalk & ->).
  fold output_dir in Harch', Hdeps', Hwalk. simpl in Hexit.
  assert (rel' = target_rel) as -> by congruence.
  assert (arch' = target_arch) as -> by congruence.
  assert (deps' = deps0) as -> by congruence.
  apply exit_code_of_zero in Hexit as [Hmissing Hwrong].
  apply walk_inv_Finished in Hwalk as [Hinv Hend].
  assert (n ∈ seen st) as Hn by (by eapply walk_inv_closed).
  destruct (inv_visited _ _ _ _ _ Hinv n Hn) as (ps & Hps & Hall).
  exists ps. split_and!; [done| |].
  - intros ->. assert (n ∈ missing st) as Hin
      by (by apply (inv_missing _ _ _ _ _ Hinv)).
    rewrite Hmissing in Hin. by apply not_elem_of_empty in Hin.
  - intros q Hq.
    destruct (Hall q Hq) as (real & arch & Hreal & Harch_q & Hdiff & Hsame).
    destruct (decide (arch = target_arch)) as [->|Hne].
    + destruct (Hsame eq_refl) as (needed & Hneeded & _).
      by exists real, needed.
    + specialize (Hdiff Hne). by rewrite Hwrong, lookup_empty in Hdiff.
Qed.

Lemma pass_verdict_is_sound_witness :
  ∃ dep_paths,
    find_dependencies_with_name Fixtures.scenario_A Fixtures.out "libc.so.6"
    = Ok dep_paths
    ∧ dep_paths ≠ []
    ∧ ∀ dep_path, dep_path ∈ dep_paths →
        ∃ real needed,
          real_dep_path Fixtures.scenario_A Fixtures.out dep_path = Ok real
          ∧ detect_architecture Fixtures.scenario_A Fixtures.out real
            = Ok "x86-64"
          ∧ detect_dependencies Fixtures.scenario_A Fixtures.out real
            = Ok needed.
Proof.
  destruct (finished_with_true (λ r, bool_decide (exit_code r = 0%Z))
              (main Fixtures.scenario_A 1 Fixtures.image_ref Fixtures.target
                 true)) as (r & Hrun & Hexit%bool_decide_eq_true);
    [vm_compute; reflexivity|].
  apply (pass_verdict_is_sound Fixtures.scenario_A 1 Fixtures.image_ref
           Fixtures.target true r (Fixtures.P "usr/sbin/dnsmasq") "x86-64"
           ["libc.so.6"] "libc.so.6" Hrun Hexit).
  - vm_compute. reflexivity.
  - vm_compute. reflexivity.
  - vm_compute. reflexivity.
  - apply Reach_start, list_elem_of_here.
Defined.

(** X13: a target without NEEDED entries passes without one search: the
    loop is not entered, whatever the fuel, zero included.  When the
    cleanup does not raise (the caller opted out, or [shutil.rmtree]
    succeeded), [main] finishes with exit code 0 and empty [seen],
    [missing] and [wrong_arch]; when [shutil.rmtree] raises, the run ends
    with that exception instead. *)
Theorem no_dependencies_pass w fuel image_ref target_binary clean
    target_rel target_arch :
  relative_to_root target_binary = Ok target_rel →
  detect_architecture w (output_dir_of image_ref) target_rel = Ok target_arch →
  detect_dependencies w (output_dir_of image_ref) target_rel = Ok [] →
  (clean = false ∨ rmtree w (output_dir_of image_ref) = Ok () →
   ∃ r, main w fuel image_ref target_binary clean = Finished r
        ∧ exit_code r = 0%Z
        ∧ seen (closure r) = ∅ ∧ missing (closure r) = ∅
        ∧ wrong_arch (closure r) = ∅)
  ∧ (∀ e, clean = true → rmtree w (output_dir_of image_ref) = Raise e →
          main w fuel image_ref target_binary clean = Crashed e).
Proof.
  intros Hrel Harch Hdeps.
  assert (closure_walk w (output_dir_of image_ref) target_arch fuel
            (initial_state []) = Finished (initial_state [])) as Hwalk
    by (by rewrite closure_walk_unfold).
  rewrite (main_after_walk _ _ _ _ clean _ _ _ _ Hrel Harch Hdeps Hwalk).
  split.
  - intros Hclean. destruct clean.
    + destruct Hclean as [Hc|Hc]; [done|]. rewrite Hc. by eexists.
    + by eexists.
  - by intros e -> ->.
Qed.

Lemma no_dependencies_pass_witness :
  (∃ r, main static_image 0 Fixtures.image_ref Fixtures.target true = Finished r
        ∧ exit_code r = 0%Z
        ∧ seen (closure r) = ∅ ∧ missing (closure r) = ∅
        ∧ wrong_arch (closure r) = ∅)
  ∧ main (failing_cleanup static_image) 0 Fixtures.image_ref Fixtures.target
      true = Crashed OSError.
Proof.
  split.
  - apply (no_dependencies_pass static_image 0 Fixtures.image_ref
             Fixtures.target true (Fixtures.P "usr/sbin/dnsmasq") "x86-64");
      try (vm_compute; reflexivity).
    right. vm_compute. reflexivity.
  - apply (no_dependencies_pass (failing_cleanup static_image) 0
             Fixtures.image_ref Fixtures.target true
             (Fixtures.P "usr/sbin/dnsmasq") "x86-64");
      vm_compute; reflexivity.
Defined.

(** X14: when [file] prints no comma for the target itself (the target is
    not in the image, say), [main] stops with [IndexError] before the walk:
    there is no report, no exit code and no cleanup, whatever [clean] is. *)
Theorem unreadable_target_crashes w fuel image_ref target_binary clean
    target_rel stdout :
  relative_to_root target_binary = Ok target_rel →
  file_stdout w (output_dir_of image_ref) target_rel = Ok stdout →
  PyStr.has_char ","%char stdout = false →
  main w fuel image_ref target_binary clean = Crashed IndexError.
Proof.
  intros Hrel Hout Hcomma. unfold main. fold (output_dir_of image_ref).
  by rewrite Hrel, (detect_architecture_without_comma _ _ _ _ Hout Hcomma).
Qed.

Lemma unreadable_target_crashes_witness :
  main empty_image 5 Fixtures.image_ref Fixtures.target true
  = Crashed IndexError.
Proof.
  apply (unreadable_target_crashes empty_image 5 Fixtures.image_ref
           Fixtures.target true (Fixtures.P "usr/sbin/dnsmasq")
           (Fixtures.cannot_open "usr/sbin/dnsmasq"));
    vm_compute; reflexivity.
Defined.

(** ** The command line *)

Lemma cleanup_removal w fuel image_ref target_binary clean r :
  main w fuel image_ref target_binary clean = Finished r →
  Rmtree (output_dir_of image_ref) ∈ effects r ↔ clean = true.
Proof.
  intros (? & ? & ? & st & _ & _ & _ & _ & ->)%main_Finished. simpl.
  destruct clean; rewrite !elem_of_cons, ?elem_of_nil; naive_solver.
Qed.

(** X15: the flag [--skip-clean] does what its name says.  In a run that
    reaches its exit call, the extraction directory is removed exactly when
    the flag is not given.  With the flag the run also reaches its exit
    call, with the same exit code, [seen], [missing] and [wrong_arch];
    without the flag it does so with the same results when it reaches its
    exit call at all, and it ends with the exception of [shutil.rmtree]
    when that raises. *)
Theorem skip_clean_keeps_directory w fuel image target_bin skip_clean_given r :
  script w fuel (parse_args image target_bin skip_clean_given) = Finished r →
  (Rmtree (output_dir_of image) ∈ effects r ↔ skip_clean_given = false)
  ∧ (∃ r', script w fuel (parse_args image target_bin true) = Finished r'
           ∧ closure r' = closure r ∧ exit_code r' = exit_code r
           ∧ Rmtree (output_dir_of image) ∉ effects r')
  ∧ (∀ r', script w fuel (parse_args image target_bin false) = Finished r' →
           closure r' = closure r ∧ exit_code r' = exit_code r
           ∧ Rmtree (output_dir_of image) ∈ effects r')
  ∧ (∀ e, rmtree w (output_dir_of image) = Raise e →
          script w fuel (parse_args image target_bin false) = Crashed e).
Proof.
  unfold script, parse_args. simpl. intros Hrun.
  destruct (main_Finished _ _ _ _ _ _ Hrun)
    as (rel & arch & deps0 & st & Hrel & Harch & Hdeps & Hwalk & Hr).
  pose proof (main_after_walk w fuel image target_bin false _ _ _ _
                Hrel Harch Hdeps Hwalk) as Hskip.
  pose proof (main_after_walk w fuel image target_bin true _ _ _ _
                Hrel Harch Hdeps Hwalk) as Hclean.
  simpl in Hskip. split_and!.
  - rewrite (cleanup_removal w fuel image target_bin _ r Hrun).
    destruct skip_clean_given; naive_solver.
  - eexists. split; [exact Hskip|]. subst r. simpl.
    split_and!; [done..|]. rewrite !elem_of_cons, elem_of_nil. naive_solver.
  - intros r' Hrun'. rewrite Hclean in Hrun'.
    destruct (rmtree w (output_dir_of image)); [|done].
    injection Hrun' as <-. subst r. simpl. split_and!; [done..|].
    rewrite !elem_of_cons. naive_solver.
  - intros e He. by rewrite Hclean, He.
Qed.

Lemma skip_clean_keeps_directory_witness :
  ∃ r, script Fixtures.scenario_B 1
         (parse_args Fixtures.image_ref Fixtures.target true) = Finished r
       ∧ (¬ Rmtree (output_dir_of Fixtures.image_ref) ∈ effects r)
       ∧ script (failing_cleanup Fixtures.scenario_B) 1
           (parse_args Fixtures.image_ref Fixtures.target false)
         = Crashed OSError.
Proof.
  destruct (finished_with_true (λ _, true)
              (script Fixtures.scenario_B 1
                 (parse_args Fixtures.image_ref Fixtures.target true)))
    as (r & Hrun & _); [vm_compute; reflexivity|].
  exists r. split; [exact Hrun|]. split.
  - intros Hin.
    by apply (proj1 (skip_clean_keeps_directory _ _ _ _ _ _ Hrun)) in Hin.
  - destruct (finished_with_true (λ _, true)
                (script (failing_cleanup Fixtures.scenario_B) 1
                   (parse_args Fixtures.image_ref Fixtures.target true)))
      as (r' & Hrun' & _); [vm_compute; reflexivity|].
    destruct (skip_clean_keeps_directory _ _ _ _ _ _ Hrun')
      as (_ & _ & _ & Hraise).
    apply Hraise. vm_compute. reflexivity.
Defined.

(** ** More on what a finished run tells *)

Lemma parse_components s : Forall component (parts (PurePath.parse s)).
Proof.
  unfold PurePath.parse. destruct (PurePath.splitroot s) as [anchor rel].
  simpl. pose proof (split_pieces_no_sep "/"%char rel) as Hpieces.
  apply Forall_forall. intros c [Hkept Hin]%list_elem_of_filter.
  split; [done|]. rewrite Forall_forall in Hpieces. by apply Hpieces.
Qed.

(** X16: the path [relative_to_root] returns is made of proper components
    only: none is empty, none is a single dot, none holds a slash. *)
Theorem relative_to_root_components path p :
  relative_to_root path = Ok p → Forall component (parts p).
Proof.
  rewrite relative_to_root_spec. intros [= <-]. apply parse_components.
Qed.

Lemma relative_to_root_components_witness :
  Forall component ["usr"; "sbin"; "dnsmasq"].
Proof.
  exact (relative_to_root_components "//usr/./sbin//dnsmasq/"
           (MkPath "" ["usr"; "sbin"; "dnsmasq"]) eq_refl).
Defined.

Lemma detect_dependencies_tokens w cwd target_binary names :
  detect_dependencies w cwd target_binary = Ok names → Forall token names.
Proof.
  unfold detect_dependencies.
  destruct (objdump_stdout w cwd target_binary) as [stdout|]; [|done]. simpl.
  intros (new & -> & Hnew)%needed_of_lines_Ok. simpl.
  induction Hnew as [|line name lines new Hname _ IH]; constructor; [|done].
  pose proof (split_ws_tokens line) as Htokens.
  rewrite Forall_forall in Htokens. apply Htokens.
  by eapply list_elem_of_lookup_2.
Qed.

Lemma Reach_tokens w output_dir target_binary_arch deps0 n :
  Forall token deps0 →
  Reach w output_dir target_binary_arch deps0 n → token n.
Proof.
  intros Hstart. induction 1 as [n Hn|n ps q real needed m _ _ _ _ _ _ Hneeded Hm].
  - rewrite Forall_forall in Hstart. by apply Hstart.
  - apply detect_dependencies_tokens in Hneeded.
    rewrite Forall_forall in Hneeded. by apply Hneeded.
Qed.

(** X17: every name a finished run lists in [seen] (and so in [missing])
    is a token: it is not empty and holds no white space. *)
Theorem seen_names_are_tokens w fuel image_ref target_binary clean r n :
  main w fuel image_ref target_binary clean = Finished r →
  n ∈ seen (closure r) → token n.
Proof.
  intros (rel & arch & deps0 & st & _ & _ & Hdeps & Hwalk & ->)%main_Finished.
  simpl. intros Hn.
  apply walk_inv_Finished in Hwalk as [Hinv _].
  eapply Reach_tokens; [by eapply detect_dependencies_tokens|].
  by apply (inv_reach_seen _ _ _ _ _ Hinv).
Qed.

Lemma seen_names_are_tokens_witness :
  ∃ r, main Fixtures.mixed 4 Fixtures.image_ref Fixtures.target true
       = Finished r
       ∧ "ld-linux-x86-64.so.2" ∈ seen (closure r)
       ∧ token "ld-linux-x86-64.so.2".
Proof.
  destruct (finished_with_true
              (λ r, bool_decide ("ld-linux-x86-64.so.2" ∈ seen (closure r)))
              (main Fixtures.mixed 4 Fixtures.image_ref Fixtures.target true))
    as (r & Hrun & Hseen%bool_decide_eq_true); [vm_compute; reflexivity|].
  exists r. split; [exact Hrun|]. split; [exact Hseen|].
  exact (seen_names_are_tokens _ _ _ _ _ _ _ Hrun Hseen).
Defined.

(** X18: after every turn of the loop, every name in [seen] is a NEEDED
    entry of the target or a NEEDED entry of (the file behind) one of the
    files of the image: with every search result drawn from [files], [seen]
    stays within [name_space]. *)
Theorem seen_within_name_space w output_dir target_binary_arch deps0 files st n :
  (∀ n dep_paths,
     find_dependencies_with_name w output_dir n = Ok dep_paths →
     dep_paths ⊆ files) →
  rtc (walk_step w output_dir target_binary_arch) (initial_state deps0) st →
  n ∈ seen st →
  n ∈ name_space w output_dir deps0 files.
Proof.
  intros Hfinite Hinv%walk_inv_reached Hn.
  apply (inv_reach_seen _ _ _ _ _ Hinv) in Hn. unfold name_space.
  induction Hn as [n Hn|n ps q real needed m _ _ Hps Hq Hreal _ Hneeded Hm].
  - apply elem_of_app. by left.
  - apply elem_of_app. right. apply list_elem_of_bind. exists q.
    split; [|by eapply Hfinite]. unfold needed_by. by rewrite Hreal, Hneeded.
Qed.

Lemma seen_within_name_space_witness :
  ∃ st,
    closure_walk Fixtures.mixed Fixtures.out "x86-64" 4
      (initial_state ["libc.so.6"; "libfoo.so"; "libbar.so"]) = Finished st
    ∧ ∀ n, n ∈ seen st →
           n ∈ name_space Fixtures.mixed Fixtures.out
                 ["libc.so.6"; "libfoo.so"; "libbar.so"] Fixtures.mixed_files.
Proof.
  destruct (finished_with_true (λ _, true)
              (closure_walk Fixtures.mixed Fixtures.out "x86-64" 4
                 (initial_state ["libc.so.6"; "libfoo.so"; "libbar.so"])))
    as (st & Hrun & _); [vm_compute; reflexivity|].
  exists st. split; [exact Hrun|]. intros n.
  exact (seen_within_name_space Fixtures.mixed Fixtures.out "x86-64"
           ["libc.so.6"; "libfoo.so"; "libbar.so"] Fixtures.mixed_files st n
           mixed_glob_finite
           (proj1 (closure_walk_Finished _ _ _ _ _ _ Hrun))).
Defined.

(** X19: [main] reaches a verdict only if no probe raised.  In a finished
    run, for every name reachable from the NEEDED entries of the target the
    search returned, and every file it returned was resolved and got an
    architecture tag; so an image in which one such probe raises (a file
    for which [file] prints no comma, a link that leaves the image) never
    gets a report, whatever the fuel. *)
Theorem verdict_needs_every_probe w fuel image_ref target_binary clean r
    target_rel target_arch deps0 n :
  let output_dir := output_dir_of image_ref in
  main w fuel image_ref target_binary clean = Finished r →
  relative_to_root target_binary = Ok target_rel →
  detect_architecture w output_dir target_rel = Ok target_arch →
  detect_dependencies w output_dir target_rel = Ok deps0 →
  Reach w output_dir target_arch deps0 n →
  ∃ dep_paths,
    find_dependencies_with_name w output_dir n = Ok dep_paths
    ∧ ∀ dep_path, dep_path ∈ dep_paths →
        ∃ real arch,
          real_dep_path w output_dir dep_path = Ok real
          ∧ detect_architecture w output_dir real = Ok arch.
Proof.
  intros output_dir Hmain Hrel Harch Hdeps Hreach.
  apply main_Finished in Hmain
    as (rel' & arch' & deps' & st & Hrel' & Harch' & Hdeps' & Hwalk & ->).
  fold output_dir in Harch', Hdeps', Hwalk.
  assert (rel' = target_rel) as -> by congruence.
  assert (arch' = target_arch) as -> by congruence.
  assert (deps' = deps0) as -> by congruence.
  apply walk_inv_Finished in Hwalk as [Hinv Hend].
  assert (n ∈ seen st) as Hn by (by eapply walk_inv_closed).
  destruct (inv_visited _ _ _ _ _ Hinv n Hn) as (ps & Hps & Hall).
  exists ps. split; [done|]. intros q Hq.
  destruct (Hall q Hq) as (real & arch & ? & ? & _). by exists real, arch.
Qed.

Lemma verdict_needs_every_probe_witness :
  ∃ dep_paths,
    find_dependencies_with_name Fixtures.mixed Fixtures.out "libbar.so"
    = Ok dep_paths
    ∧ ∀ dep_path, dep_path ∈ dep_paths →
        ∃ real arch,
          real_dep_path Fixtures.mixed Fixtures.out dep_path = Ok real
          ∧ detect_architecture Fixtures.mixed Fixtures.out real = Ok arch.
Proof.
  destruct (finished_with_true (λ _, true)
              (main Fixtures.mixed 4 Fixtures.image_ref Fixtures.target true))
    as (r & Hrun & _); [vm_compute; reflexivity|].
  apply (verdict_needs_every_probe Fixtures.mixed 4 Fixtures.image_ref
           Fixtures.target true r (Fixtures.P "usr/sbin/dnsmasq") "x86-64"
           ["libc.so.6"; "libfoo.so"; "libbar.so"] "libbar.so" Hrun).
  - vm_compute. reflexivity.
  - vm_compute. reflexivity.
  - vm_compute. reflexivity.
  - apply Reach_start. apply list_elem_of_further, list_elem_of_further,
      list_elem_of_here.
Defined.
